(** * Sovereign ratings: rating normalisation and label placement

    A shallow embedding of the two algorithmic pieces of the repository:

    - [GTI/code/scrape_bond_data.py]: the three agency tables,
      [extract_base_rating], [convert_rating_to_numeric] and the
      [Average_Rating] column, with [categorize_by_average_rating] from
      [GTI/code/generate_ratings_table.py];
    - [Code/visualize_bond_data.py]: the two label placement loops of
      [create_full_plot] and [create_investment_grade_plot].

    Conventions of the embedding.

    - A Python [str] is a Rocq [string]; a character is read as a code
      point below 256.
    - A Python [dict] with string keys is a [gmap string Z].
    - Python [None] (and the missing value of a pandas column, which
      pandas stores as NaN) is [None] of an [option].
    - The rating scores and the averages are modelled by exact
      rationals ([Q]): [1/3] is the rational one third.  Rounding error
      of binary floating point is outside this part of the model.
    - The two label placement loops are embedded twice.  The modules
      [FullPlot] and [InvestmentGrade] have the coordinates as exact
      rationals; they carry the properties of the structure of the
      loops: the number and the order of the positions, the horizontal
      coordinate, the bounds, the stacking of coincident points.  The
      module [Binary64] has the same loops on binary64 floats, as Python
      computes them; it carries the properties that depend on the value
      of a sum or on the outcome of a comparison: where a displaced
      label lands and whether two labels collide. *)

From Stdlib Require Import QArith Qabs Qround Lqa.
From Stdlib Require Import Ascii String Sorted Permutation.
From Stdlib Require Import Floats.
From stdpp Require Import gmap strings list fin_maps.

Local Open Scope string_scope.

(* A decimal literal of a float stands for the nearest binary64 value. *)
Set Warnings "-inexact-float".

(** ** Python string primitives *)

Module PyStr.

(** [str.isspace] on a single character, for code points below 256:
    TAB..CR, FS..US, SPACE, NEL (0x85) and NBSP (0xA0). *)
Definition is_space (c : ascii) : bool :=
  let n := N_of_ascii c in
  ((9 <=? n) && (n <=? 13) || (28 <=? n) && (n <=? 32)
   || (n =? 133) || (n =? 160))%N.

(** [not s] on a string: [s] is the empty string. *)
Definition is_empty (s : string) : bool :=
  match s with
  | EmptyString => true
  | String _ _ => false
  end.

Fixpoint lstrip (s : string) : string :=
  match s with
  | EmptyString => EmptyString
  | String c r => if is_space c then lstrip r else s
  end.

Fixpoint rstrip (s : string) : string :=
  match s with
  | EmptyString => EmptyString
  | String c r =>
      let r' := rstrip r in
      if is_space c && is_empty r' then EmptyString else String c r'
  end.

(** [s.strip()] *)
Definition strip (s : string) : string := rstrip (lstrip s).

(** [s.startswith(p)] *)
Fixpoint startswith (p s : string) : bool :=
  match p, s with
  | EmptyString, _ => true
  | String a p', String b s' => Ascii.eqb a b && startswith p' s'
  | String _ _, EmptyString => false
  end.

(** [p in s]: [p] occurs in [s] as a contiguous substring. *)
Fixpoint contains (p s : string) : bool :=
  startswith p s ||
  match s with
  | EmptyString => false
  | String _ r => contains p r
  end.

(** The scan of [s.replace(old, new)] for a non-empty [old]: occurrences
    are found left to right and do not overlap; [skip] counts the
    characters of the occurrence just replaced that are still to be
    passed over. *)
Fixpoint replace_scan (old new : string) (skip : nat) (s : string) : string :=
  match s with
  | EmptyString => EmptyString
  | String c r =>
      match skip with
      | S k => replace_scan old new k r
      | O =>
          if startswith old s
          then new ++ replace_scan old new (String.length old - 1) r
          else String c (replace_scan old new 0 r)
      end
  end.

(** With an empty [old], Python puts [new] before every character and at
    the end. *)
Fixpoint intersperse (new s : string) : string :=
  match s with
  | EmptyString => new
  | String c r => new ++ String c (intersperse new r)
  end.

(** [s.replace(old, new)] *)
Definition replace (old new s : string) : string :=
  if is_empty old then intersperse new s else replace_scan old new 0 s.

(** [x in xs] for a list of strings. *)
Definition in_list (x : string) (xs : list string) : bool :=
  existsb (String.eqb x) xs.

End PyStr.

(** ** The rating-code pattern

    [re.search(r'([A-Za-z]{1,3}[\+\-]?[123]?)', s)]: the leftmost match,
    each quantifier greedy.  As the two optional classes can match the
    empty string, a match starts at the first position that holds a
    letter and the greedy choice is never undone: up to three letters,
    then a sign when one follows, then a digit 1..3 when one follows. *)

Module RatingRe.

Definition is_alpha (c : ascii) : bool :=
  let n := N_of_ascii c in
  ((65 <=? n) && (n <=? 90) || (97 <=? n) && (n <=? 122))%N.

Definition is_sign (c : ascii) : bool :=
  Ascii.eqb c "+" || Ascii.eqb c "-".

Definition is_123 (c : ascii) : bool :=
  Ascii.eqb c "1" || Ascii.eqb c "2" || Ascii.eqb c "3".

(** [[A-Za-z]{0,n}], greedy: the letters taken and the rest. *)
Fixpoint take_letters (n : nat) (s : string) : string * string :=
  match n, s with
  | S k, String c r =>
      if is_alpha c
      then let (l, rest) := take_letters k r in (String c l, rest)
      else (EmptyString, s)
  | _, _ => (EmptyString, s)
  end.

(** [[cls]?], greedy. *)
Definition take_opt (cls : ascii -> bool) (s : string) : string * string :=
  match s with
  | String c r => if cls c then (String c EmptyString, r) else (EmptyString, s)
  | EmptyString => (EmptyString, s)
  end.

(** The match anchored at the start of [s], if there is one. *)
Definition match_here (s : string) : option string :=
  let (l, r1) := take_letters 3 s in
  if PyStr.is_empty l then None
  else
    let (sg, r2) := take_opt is_sign r1 in
    let (d, _) := take_opt is_123 r2 in
    Some (l ++ sg ++ d).

(** [re.search]: group 1 of the leftmost match. *)
Fixpoint search (s : string) : option string :=
  match match_here s with
  | Some m => Some m
  | None =>
      match s with
      | EmptyString => None
      | String _ r => search r
      end
  end.

End RatingRe.

(** ** The agency tables *)

Definition SP_RATINGS : gmap string Z :=
  list_to_map
    [("AAA", 22); ("AA+", 21); ("AA", 20); ("AA-", 19);
     ("A+", 18); ("A", 17); ("A-", 16);
     ("BBB+", 15); ("BBB", 14); ("BBB-", 13);
     ("BB+", 12); ("BB", 11); ("BB-", 10);
     ("B+", 9); ("B", 8); ("B-", 7);
     ("CCC+", 6); ("CCC", 5); ("CCC-", 4);
     ("CC", 3); ("C", 2); ("D", 1)]%Z.

Definition MOODYS_RATINGS : gmap string Z :=
  list_to_map
    [("Aaa", 22); ("Aa1", 21); ("Aa2", 20); ("Aa3", 19);
     ("A1", 18); ("A2", 17); ("A3", 16);
     ("Baa1", 15); ("Baa2", 14); ("Baa3", 13);
     ("Ba1", 12); ("Ba2", 11); ("Ba3", 10);
     ("B1", 9); ("B2", 8); ("B3", 7);
     ("Caa1", 6); ("Caa2", 5); ("Caa3", 4);
     ("Ca", 3); ("C", 1)]%Z.

Definition FITCH_RATINGS : gmap string Z :=
  list_to_map
    [("AAA", 22); ("AA+", 21); ("AA", 20); ("AA-", 19);
     ("A+", 18); ("A", 17); ("A-", 16);
     ("BBB+", 15); ("BBB", 14); ("BBB-", 13);
     ("BB+", 12); ("BB", 11); ("BB-", 10);
     ("B+", 9); ("B", 8); ("B-", 7);
     ("CCC+", 6); ("CCC", 5); ("CCC-", 4);
     ("CC", 3); ("C", 2); ("D", 1)]%Z.

(** The three tables the scraper passes to the normaliser. *)
Definition agency_tables : list (gmap string Z) :=
  [SP_RATINGS; MOODYS_RATINGS; FITCH_RATINGS].

(** ** The rating normaliser *)

Definition UPGRADE_4 : string := "    [upgrade]".
Definition DOWNGRADE_4 : string := "    [downgrade]".
Definition UPGRADE : string := "[upgrade]".
Definition DOWNGRADE : string := "[downgrade]".

Definition extract_base_rating (rating_text : string) : string :=
  if PyStr.is_empty rating_text
     || PyStr.in_list rating_text ["N/A"; "-"; EmptyString; "NR"]
  then "N/A"
  else
    let clean_rating :=
      PyStr.strip
        (PyStr.replace DOWNGRADE_4 EmptyString
           (PyStr.replace UPGRADE_4 EmptyString rating_text)) in
    if PyStr.in_list clean_rating ["SD"; "RD"] then "D"
    else
      match RatingRe.search clean_rating with
      | Some m => m
      | None => clean_rating
      end.

(** The outlook modifier of [convert_rating_to_numeric]. *)
Definition upgrade_modifier (rating_text : string) : Q :=
  if PyStr.contains UPGRADE_4 rating_text || PyStr.contains UPGRADE rating_text
  then (1 / 3)%Q
  else if PyStr.contains DOWNGRADE_4 rating_text
          || PyStr.contains DOWNGRADE rating_text
  then (-1 / 3)%Q
  else 0%Q.

Definition convert_rating_to_numeric
    (rating_text : string) (rating_dict : gmap string Z) : option Q :=
  if PyStr.is_empty rating_text then None
  else
    let base_rating := extract_base_rating rating_text in
    if String.eqb base_rating "N/A" then None
    else
      match rating_dict !! base_rating with
      | None => None
      | Some base_numeric =>
          Some (inject_Z base_numeric + upgrade_modifier rating_text)%Q
      end.

(** ** The [Average_Rating] column and the grade categories *)

(** pandas [DataFrame.mean(axis=1, skipna=True)] on one row: the mean of
    the values that are present, and a missing value when none is. *)
Definition mean_skipna (row : list (option Q)) : option Q :=
  match omap id row with
  | [] => None
  | present =>
      Some (fold_right Qplus 0 present / inject_Z (Z.of_nat (length present)))%Q
  end.

(** Rounding to the nearest integer, ties to the even one. *)
Definition round_half_even (q : Q) : Z :=
  let f := Qfloor q in
  let r := (q - inject_Z f)%Q in
  match (r ?= 1 # 2)%Q with
  | Lt => f
  | Gt => (f + 1)%Z
  | Eq => if Z.even f then f else (f + 1)%Z
  end.

(** [Series.round(2)] on one value. *)
Definition round2 (q : Q) : Q :=
  (inject_Z (round_half_even (q * 100)) / 100)%Q.

(** [df[numeric_cols].mean(axis=1, skipna=True).round(2)] for the row with
    the three numeric columns [sp], [moodys], [fitch]. *)
Definition Average_Rating (sp moodys fitch : option Q) : option Q :=
  round2 <$> mean_skipna [sp; moodys; fitch].

(** [df[numeric_cols].count(axis=1)] *)
Definition Ratings_Count (sp moodys fitch : option Q) : nat :=
  length (omap id [sp; moodys; fitch]).

(** The numeric columns of a scraped row, from its three rating texts. *)
Definition row_average (sp moodys fitch : string) : option Q :=
  Average_Rating
    (convert_rating_to_numeric sp SP_RATINGS)
    (convert_rating_to_numeric moodys MOODYS_RATINGS)
    (convert_rating_to_numeric fitch FITCH_RATINGS).

(** [RATING_GRADES], in insertion order, with the [range] entry of each
    grade. *)
Definition RATING_GRADES : list (string * (Q * Q)) :=
  [("Prime", (22, 22)); ("High Medium Grade", (19, 21));
   ("Upper Medium Grade", (16, 18)); ("Lower Medium Grade", (13, 15));
   ("Speculative", (10, 12)); ("Highly Speculative", (7, 9));
   ("Substantial Risk", (4, 6)); ("Extremely Speculative", (2, 3));
   ("In Default", (1, 1))]%Q.

Definition categorize_by_average_rating (avg_rating : option Q) : string :=
  match avg_rating with
  | None => "No Rating"
  | Some a =>
      match
        List.find (fun '(_, (min_val, max_val)) =>
                     Qle_bool min_val a && Qle_bool a max_val) RATING_GRADES
      with
      | Some (grade, _) => grade
      | None => "No Rating"
      end
  end.

(** ** Label placement

    The loops with exact rationals for coordinates: what is stated on
    them does not depend on a rounded value.  The loops on binary64
    floats follow in the module [Binary64]. *)

(** [a < b] on the numbers of the plots. *)
Definition Qltb (a b : Q) : bool := negb (Qle_bool b a).

(** One entry [(x, y, ctry, code)] of [country_data]. *)
Record LabelPoint : Type := mkPoint {
  pt_x : Q;
  pt_y : Q;
  pt_ctry : string;
  pt_code : string
}.

(** [list.sort(key=...)] is stable; [lt] is the strict order of the keys.
    A point is put in front of the first point whose key is not below
    its own, so that points with equal keys keep their order. *)
Fixpoint insert_by {A : Type} (lt : A -> A -> bool) (p : A) (l : list A)
  : list A :=
  match l with
  | [] => [p]
  | q :: r => if lt q p then q :: insert_by lt p r else p :: l
  end.

Definition sort_by {A : Type} (lt : A -> A -> bool) (l : list A) : list A :=
  fold_right (insert_by lt) [] l.

(** One pass of the outer loop: the position of [p] is appended to
    [used_positions]; [adjust lx ly used_positions] is the inner loop. *)
Definition place_step (adjust : Q -> Q -> list (Q * Q) -> Q) (label_dx : Q)
    (used_positions : list (Q * Q)) (p : LabelPoint) : list (Q * Q) :=
  let lx := (pt_x p + label_dx)%Q in
  let ly := pt_y p in
  used_positions ++ [(lx, adjust lx ly used_positions)].

(** The outer loop over the sorted [country_data], from an empty
    [used_positions]. *)
Definition place (adjust : Q -> Q -> list (Q * Q) -> Q) (label_dx : Q)
    (country_data : list LabelPoint) : list (Q * Q) :=
  fold_left (place_step adjust label_dx) country_data [].

(** *** [create_full_plot] *)

Module FullPlot.

Definition min_distance : Q := 0.8.
Definition window : Q := 50.

(** [key=lambda item: item[0]] *)
Definition key_lt (p q : LabelPoint) : bool := Qltb (pt_x p) (pt_x q).

(** The body of the inner loop, for one entry of [used_positions]. *)
Definition adjust_step (lx : Q) (ly : Q) (used : Q * Q) : Q :=
  let '(used_x, used_y) := used in
  if Qltb (Qabs (lx - used_x)) window then
    if Qltb (Qabs (ly - used_y)) min_distance then
      if Qle_bool used_y ly then (used_y + min_distance)%Q
      else (used_y - min_distance)%Q
    else ly
  else ly.

(** The inner loop: every entry is visited, [ly] is carried along. *)
Definition adjust (lx ly : Q) (used_positions : list (Q * Q)) : Q :=
  fold_left (adjust_step lx) used_positions ly.

(** Sorting and placing; [label_dx] defaults to 8. *)
Definition resolve (label_dx : Q) (country_data : list LabelPoint)
  : list (Q * Q) :=
  place adjust label_dx (sort_by key_lt country_data).

End FullPlot.

(** *** [create_investment_grade_plot] *)

Module InvestmentGrade.

Definition min_distance : Q := 0.6.
Definition window : Q := 40.

(** [key=lambda item: (item[0], item[1])]: tuples compare
    lexicographically. *)
Definition key_lt (p q : LabelPoint) : bool :=
  Qltb (pt_x p) (pt_x q)
  || Qeq_bool (pt_x p) (pt_x q) && Qltb (pt_y p) (pt_y q).

(** [13.8 <= candidate <= 22.5] *)
Definition in_bounds (candidate : Q) : bool :=
  Qle_bool 13.8 candidate && Qle_bool candidate 22.5.

(** [abs(lx - ux) < 40 and abs(ly - uy) < min_distance] *)
Definition overlaps (lx ly : Q) (used : Q * Q) : bool :=
  let '(ux, uy) := used in
  Qltb (Qabs (lx - ux)) window && Qltb (Qabs (ly - uy)) min_distance.

(** [sum(1 for ux, uy in used_positions if ...)] *)
Definition overlap_count (lx candidate : Q) (used_positions : list (Q * Q))
  : nat :=
  length (List.filter (overlaps lx candidate) used_positions).

Definition candidates (used_y : Q) : list Q :=
  [used_y + min_distance; used_y - min_distance;
   used_y + min_distance * 1.5; used_y - min_distance * 1.5]%Q.

(** [overlap < min_overlap], where [None] is [float('inf')]. *)
Definition below (overlap : nat) (min_overlap : option nat) : bool :=
  match min_overlap with
  | None => true
  | Some m => Nat.ltb overlap m
  end.

(** The body of the loop over [candidates]; the state is
    [(best_ly, min_overlap)]. *)
Definition best_step (lx : Q) (used_positions : list (Q * Q))
    (st : Q * option nat) (candidate : Q) : Q * option nat :=
  if in_bounds candidate then
    let overlap := overlap_count lx candidate used_positions in
    if below overlap (snd st) then (candidate, Some overlap) else st
  else st.

Definition best_position (lx ly used_y : Q) (used_positions : list (Q * Q))
  : Q :=
  fst (fold_left (best_step lx used_positions) (candidates used_y) (ly, None)).

(** The inner loop over [rest], the entries of [used_positions] not yet
    visited; it ends at the first entry that overlaps ([break]). *)
Fixpoint adjust_from (lx ly : Q) (used_positions rest : list (Q * Q)) : Q :=
  match rest with
  | [] => ly
  | (used_x, used_y) :: rest' =>
      if Qltb (Qabs (lx - used_x)) window then
        if Qltb (Qabs (ly - used_y)) min_distance then
          best_position lx ly used_y used_positions
        else adjust_from lx ly used_positions rest'
      else adjust_from lx ly used_positions rest'
  end.

Definition adjust (lx ly : Q) (used_positions : list (Q * Q)) : Q :=
  adjust_from lx ly used_positions used_positions.

Definition resolve (label_dx : Q) (country_data : list LabelPoint)
  : list (Q * Q) :=
  place adjust label_dx (sort_by key_lt country_data).

End InvestmentGrade.

(** ** Label placement in binary64

    The label loops once more, with the numbers as the code has them:
    binary64 floats, every operation rounded to nearest-even.  A decimal
    literal stands for the nearest binary64 value, as in Python. *)

Module Binary64.

(** One entry [(x, y, ctry, code)] of [country_data].  The loop that
    builds [country_data] leaves out the rows whose [x] or [y] is NaN, so
    the keys of the sort are numbers, which [<] orders. *)
Record LabelPoint : Type := mkPoint {
  pt_x : float;
  pt_y : float;
  pt_ctry : string;
  pt_code : string
}.

(** One pass of the outer loop: the position of [p] is appended to
    [used_positions]; [adjust lx ly used_positions] is the inner loop. *)
Definition place_step (adjust : float -> float -> list (float * float) -> float)
    (label_dx : float) (used_positions : list (float * float))
    (p : LabelPoint) : list (float * float) :=
  let lx := (pt_x p + label_dx)%float in
  let ly := pt_y p in
  used_positions ++ [(lx, adjust lx ly used_positions)].

(** The outer loop over the sorted [country_data], from an empty
    [used_positions]. *)
Definition place (adjust : float -> float -> list (float * float) -> float)
    (label_dx : float) (country_data : list LabelPoint)
  : list (float * float) :=
  fold_left (place_step adjust label_dx) country_data [].

(** *** [create_full_plot] *)

Module FullPlot.

Definition min_distance : float := 0.8.
Definition window : float := 50.

(** [key=lambda item: item[0]] *)
Definition key_lt (p q : LabelPoint) : bool := (pt_x p <? pt_x q)%float.

(** The body of the inner loop, for one entry of [used_positions];
    [ly >= used_y] is [used_y <= ly]. *)
Definition adjust_step (lx : float) (ly : float) (used : float * float)
  : float :=
  let '(used_x, used_y) := used in
  if (abs (lx - used_x) <? window)%float then
    if (abs (ly - used_y) <? min_distance)%float then
      if (used_y <=? ly)%float then (used_y + min_distance)%float
      else (used_y - min_distance)%float
    else ly
  else ly.

(** The inner loop: every entry is visited, [ly] is carried along. *)
Definition adjust (lx ly : float) (used_positions : list (float * float))
  : float :=
  fold_left (adjust_step lx) used_positions ly.

(** Sorting and placing; [label_dx] defaults to 8. *)
Definition resolve (label_dx : float) (country_data : list LabelPoint)
  : list (float * float) :=
  place adjust label_dx (sort_by key_lt country_data).

End FullPlot.

(** *** [create_investment_grade_plot] *)

Module InvestmentGrade.

Definition min_distance : float := 0.6.
Definition window : float := 40.

(** [key=lambda item: (item[0], item[1])]: a tuple is below another
    when, at the first place where the two differ, its entry is below
    the other's. *)
Definition key_lt (p q : LabelPoint) : bool :=
  if negb (pt_x p =? pt_x q)%float then (pt_x p <? pt_x q)%float
  else if negb (pt_y p =? pt_y q)%float then (pt_y p <? pt_y q)%float
  else false.

(** [13.8 <= candidate <= 22.5] *)
Definition in_bounds (candidate : float) : bool :=
  (13.8 <=? candidate)%float && (candidate <=? 22.5)%float.

(** [abs(lx - ux) < 40 and abs(ly - uy) < min_distance] *)
Definition overlaps (lx ly : float) (used : float * float) : bool :=
  let '(ux, uy) := used in
  (abs (lx - ux) <? window)%float && (abs (ly - uy) <? min_distance)%float.

(** [sum(1 for ux, uy in used_positions if ...)] *)
Definition overlap_count (lx candidate : float)
    (used_positions : list (float * float)) : nat :=
  length (List.filter (overlaps lx candidate) used_positions).

Definition candidates (used_y : float) : list float :=
  [used_y + min_distance; used_y - min_distance;
   used_y + min_distance * 1.5; used_y - min_distance * 1.5]%float.

(** [overlap < min_overlap], where [None] is [float('inf')]. *)
Definition below (overlap : nat) (min_overlap : option nat) : bool :=
  match min_overlap with
  | None => true
  | Some m => Nat.ltb overlap m
  end.

(** The body of the loop over [candidates]; the state is
    [(best_ly, min_overlap)]. *)
Definition best_step (lx : float) (used_positions : list (float * float))
    (st : float * option nat) (candidate : float) : float * option nat :=
  if in_bounds candidate then
    let overlap := overlap_count lx candidate used_positions in
    if below overlap (snd st) then (candidate, Some overlap) else st
  else st.

Definition best_position (lx ly used_y : float)
    (used_positions : list (float * float)) : float :=
  fst (fold_left (best_step lx used_positions) (candidates used_y) (ly, None)).

(** The inner loop over [rest], the entries of [used_positions] not yet
    visited; it ends at the first entry that overlaps ([break]). *)
Fixpoint adjust_from (lx ly : float)
    (used_positions rest : list (float * float)) : float :=
  match rest with
  | [] => ly
  | (used_x, used_y) :: rest' =>
      if (abs (lx - used_x) <? window)%float then
        if (abs (ly - used_y) <? min_distance)%float then
          best_position lx ly used_y used_positions
        else adjust_from lx ly used_positions rest'
      else adjust_from lx ly used_positions rest'
  end.

Definition adjust (lx ly : float) (used_positions : list (float * float))
  : float :=
  adjust_from lx ly used_positions used_positions.

Definition resolve (label_dx : float) (country_data : list LabelPoint)
  : list (float * float) :=
  place adjust label_dx (sort_by key_lt country_data).

End InvestmentGrade.

(** *** Notions used in the statements *)

(** A label at [(lx, ly)] collides with the placed label [used], by the
    test of the resolvers: they are less than [w] apart horizontally and
    less than [d] vertically. *)
Definition collides (w d lx ly : float) (used : float * float) : bool :=
  (abs (lx - fst used) <? w)%float && (abs (ly - snd used) <? d)%float.

(** The number of placed labels a label at [(lx, c)] collides with. *)
Definition collisions (w d lx c : float)
    (used_positions : list (float * float)) : nat :=
  length (List.filter (collides w d lx c) used_positions).

(** [c] is the first of the positions [cs] with the fewest collisions:
    the positions before it have more, those behind it no fewer. *)
Definition first_with_fewest (count : float -> nat) (cs : list float)
    (c : float) : Prop :=
  exists before behind,
    cs = (before ++ c :: behind)%list
    /\ (forall c', In c' before -> (count c < count c')%nat)
    /\ (forall c', In c' behind -> (count c <= count c')%nat).

(** The displacement rule as the specification words it, for a resolver
    [adjust] with horizontal window [w], vertical gap [d], candidate
    positions [cands used_y] around a placed label and valid range
    [valid]: when a placed label lies within the window and closer than
    [d] to the candidate, the result is one of the valid candidate
    positions around such a label, and none of them has fewer
    collisions. *)
Definition fewest_collisions_rule (w d : float) (cands : float -> list float)
    (valid : float -> bool)
    (adjust : float -> float -> list (float * float) -> float) : Prop :=
  forall lx ly used_positions,
    (exists u, In u used_positions /\ collides w d lx ly u = true) ->
    exists u, In u used_positions /\ collides w d lx ly u = true /\
      let C := List.filter valid (cands (snd u)) in
      C <> [] ->
      In (adjust lx ly used_positions) C /\
      forall c, In c C ->
        (collisions w d lx (adjust lx ly used_positions) used_positions
         <= collisions w d lx c used_positions)%nat.

(** The state of the loop over the candidates, after the candidates
    [seen]: nothing within bounds was seen and the position is still
    [ly], or the position is the first seen within bounds with the
    fewest overlaps, and its overlap is recorded. *)
Definition best_so_far (lx ly : float) (used : list (float * float))
    (seen : list float) (st : float * option nat) : Prop :=
  match snd st with
  | None => List.filter InvestmentGrade.in_bounds seen = [] /\ fst st = ly
  | Some k =>
      InvestmentGrade.overlap_count lx (fst st) used = k
      /\ first_with_fewest
           (fun c => InvestmentGrade.overlap_count lx c used)
           (List.filter InvestmentGrade.in_bounds seen) (fst st)
  end.

(** The position of a label that nothing displaced. *)
Definition own_position (label_dx : float) (p : LabelPoint) : float * float :=
  ((pt_x p + label_dx)%float, pt_y p).

(** Neither of two labels at their own positions collides with the
    other, by the test of the resolver with window [w] and gap [d]. *)
Definition apart (w d label_dx : float) (p q : LabelPoint) : Prop :=
  collides w d (fst (own_position label_dx p)) (snd (own_position label_dx p))
    (own_position label_dx q) = false
  /\ collides w d (fst (own_position label_dx q))
       (snd (own_position label_dx q)) (own_position label_dx p) = false.

(** The exact value of a finite float, as a fraction. *)
Definition exact (f : float) : Q :=
  match Prim2SF f with
  | S754_finite s m e =>
      let v := (inject_Z (Z.pos m) * Qpower 2 e)%Q in
      if s then (- v)%Q else v
  | _ => 0%Q
  end.

End Binary64.

(** ** The grade summary and the rating labels *)

(** The ['S&P'] and ["Moody's"] entries of [RATING_GRADES]: the codes
    listed for each grade. *)
Definition RATING_GRADES_SP : list (string * list string) :=
  [("Prime", ["AAA"]); ("High Medium Grade", ["AA+"; "AA"; "AA-"]);
   ("Upper Medium Grade", ["A+"; "A"; "A-"]);
   ("Lower Medium Grade", ["BBB+"; "BBB"; "BBB-"]);
   ("Speculative", ["BB+"; "BB"; "BB-"]);
   ("Highly Speculative", ["B+"; "B"; "B-"]);
   ("Substantial Risk", ["CCC+"; "CCC"; "CCC-"]);
   ("Extremely Speculative", ["CC"; "C"]); ("In Default", ["D"])].

Definition RATING_GRADES_MOODYS : list (string * list string) :=
  [("Prime", ["Aaa"]); ("High Medium Grade", ["Aa1"; "Aa2"; "Aa3"]);
   ("Upper Medium Grade", ["A1"; "A2"; "A3"]);
   ("Lower Medium Grade", ["Baa1"; "Baa2"; "Baa3"]);
   ("Speculative", ["Ba1"; "Ba2"; "Ba3"]);
   ("Highly Speculative", ["B1"; "B2"; "B3"]);
   ("Substantial Risk", ["Caa1"; "Caa2"; "Caa3"]);
   ("Extremely Speculative", ["Ca"]); ("In Default", ["C"])].

(** [grade_order] of [generate_ratings_summary_table]. *)
Definition grade_order : list string :=
  ["Prime"; "High Medium Grade"; "Upper Medium Grade"; "Lower Medium Grade";
   "Speculative"; "Highly Speculative"; "Substantial Risk";
   "Extremely Speculative"; "In Default"; "No Rating"].

(** The loop over [grade_order] of [generate_ratings_summary_table], for
    rows [(country, Average_Rating)]: the rows of each grade, in the
    order of the file, for the grades that have any.  The rows of a
    grade are then sorted by their average and their countries joined;
    the sort is left out here. *)
Definition grade_groups (rows : list (string * option Q))
  : list (string * list (string * option Q)) :=
  flat_map
    (fun grade =>
       let countries_in_grade :=
         List.filter
           (fun row =>
              String.eqb (categorize_by_average_rating (snd row)) grade)
           rows in
       match countries_in_grade with
       | [] => []
       | _ => [(grade, countries_in_grade)]
       end)
    grade_order.

(** [RATING_LABEL] of [visualize_bond_data.py]. *)
Definition RATING_LABEL : gmap Z string :=
  list_to_map
    [(22, "AAA"); (21, "AA+"); (20, "AA"); (19, "AA-"); (18, "A+");
     (17, "A"); (16, "A-"); (15, "BBB+"); (14, "BBB"); (13, "BBB-");
     (12, "BB+"); (11, "BB"); (10, "BB-"); (9, "B+"); (8, "B"); (7, "B-");
     (6, "CCC+"); (5, "CCC"); (4, "CCC-"); (3, "CC"); (2, "C"); (1, "D")]%Z.

(** [[RATING_LABEL.get(t, "") for t in ticks]] with [ticks] the integers
    from [lo] up to [hi]. *)
Definition tick_labels (lo hi : Z) : list string :=
  map (fun t => default EmptyString (RATING_LABEL !! t))
    (seqZ lo (hi - lo + 1)).

(** ** From the rows of the file to the labelled points *)

Module PyCase.

(** [str.lower] on one character, for code points below 256: the letters
    A..Z and the capital letters of Latin-1 (0xC0..0xDE but 0xD7).  Below
    256 [str.lower] maps character by character; above, it need not (the
    lower case of U+0130 has two characters), and such texts are outside
    the model. *)
Definition lower_char (c : ascii) : ascii :=
  let n := N_of_ascii c in
  if ((65 <=? n) && (n <=? 90)
      || (192 <=? n) && (n <=? 222) && negb (n =? 215))%N
  then ascii_of_N (n + 32)
  else c.

(** [s.lower()] *)
Fixpoint lower (s : string) : string :=
  match s with
  | EmptyString => EmptyString
  | String c r => String (lower_char c) (lower r)
  end.

(** [s[:n]] *)
Fixpoint prefix (n : nat) (s : string) : string :=
  match n, s with
  | S k, String c r => String c (prefix k r)
  | _, _ => EmptyString
  end.

End PyCase.

Definition COUNTRY_TO_CODE : gmap string string :=
  list_to_map
    [("Switzerland", "ch"); ("Singapore", "sg"); ("Norway", "no");
     ("Netherlands", "nl"); ("Germany", "de"); ("Australia", "au");
     ("Sweden", "se"); ("Denmark", "dk"); ("Canada", "ca");
     ("New Zealand", "nz"); ("United States", "us"); ("USA", "us");
     ("Finland", "fi"); ("Austria", "at"); ("Qatar", "qa"); ("Taiwan", "tw");
     ("Ireland", "ie"); ("South Korea", "kr"); ("Korea, South", "kr");
     ("Hong Kong", "hk"); ("United Kingdom", "gb"); ("UK", "ua");
     ("Uk", "ua"); ("uk", "ua"); ("Belgium", "be"); ("Czech Republic", "cz");
     ("Czechia", "cz"); ("France", "fr"); ("Iceland", "is");
     ("Slovenia", "si"); ("Japan", "jp"); ("China", "cn");
     ("Lithuania", "lt"); ("Malta", "mt"); ("Chile", "cl");
     ("Portugal", "pt"); ("Slovakia", "sk"); ("Poland", "pl");
     ("Spain", "es"); ("Croatia", "hr"); ("Cyprus", "cy"); ("Israel", "il");
     ("Malaysia", "my"); ("Botswana", "bw"); ("Bulgaria", "bg");
     ("Philippines", "ph"); ("Italy", "it"); ("Indonesia", "id");
     ("Peru", "pe"); ("Kazakhstan", "kz"); ("Mexico", "mx");
     ("Hungary", "hu"); ("Greece", "gr"); ("India", "in");
     ("Mauritius", "mu"); ("Romania", "ro"); ("Colombia", "co");
     ("Serbia", "rs"); ("Morocco", "ma"); ("Vietnam", "vn");
     ("Brazil", "br"); ("South Africa", "za"); ("Jordan", "jo");
     ("Namibia", "na"); ("Turkey", "tr"); ("Bangladesh", "bd");
     ("Bahrain", "bh"); ("Uganda", "ug"); ("Nigeria", "ng"); ("Egypt", "eg");
     ("Kenya", "ke"); ("Pakistan", "pk"); ("Sri Lanka", "lk");
     ("Zambia", "zm"); ("Ukraine", "ua"); ("Ukraine (*)", "ua");
     ("Russia", "ru"); ("Bosnia and Herzegovina", "ba"); ("Bosnia", "ba");
     ("Bolivia", "bo")].

(** [COUNTRY_TO_CODE.get(ctry, ctry[:2].lower())] *)
Definition country_code (ctry : string) : string :=
  match COUNTRY_TO_CODE !! ctry with
  | Some code => code
  | None => PyCase.lower (PyCase.prefix 2 ctry)
  end.

(** A row of [credit_ratings_and_spreads.csv] as the plots read it: the
    country, [Spread_Numeric] and the three numeric rating columns, each
    number present or missing. *)
Record RatingRow : Type := mkRow {
  row_country : string;
  row_spread : option Q;
  row_sp : option Q;
  row_moodys : option Q;
  row_fitch : option Q
}.

(** The greater of two numbers, the first on a tie. *)
Definition fmax (a b : Q) : Q := if Qltb a b then b else a.

(** [np.nanmax] of a list, and the row-wise [max(axis=1)] of pandas: the
    greatest of the values present, missing when none is. *)
Definition nanmax (values : list (option Q)) : option Q :=
  match omap id values with
  | [] => None
  | v :: vs => Some (fold_left fmax vs v)
  end.

Definition row_ratings (row : RatingRow) : list (option Q) :=
  [row_sp row; row_moodys row; row_fitch row].

(** The loop that builds [country_data] in both plots: a point for every
    row with a spread and a rating, at the spread and the best rating. *)
Definition country_data (rows : list RatingRow) : list LabelPoint :=
  omap
    (fun row =>
       match row_spread row, nanmax (row_ratings row) with
       | Some x, Some y =>
           Some (mkPoint x y (row_country row)
                   (country_code (row_country row)))
       | _, _ => None
       end)
    rows.

(** [df[df[agency_cols].max(axis=1) >= 14]] *)
Definition investment_grade (row : RatingRow) : bool :=
  match nanmax (row_ratings row) with
  | Some best => Qle_bool 14 best
  | None => false
  end.

(** The label positions of [create_full_plot] and of
    [create_investment_grade_plot] for the rows of the file. *)
Definition full_plot_labels (label_dx : Q) (rows : list RatingRow)
  : list (Q * Q) :=
  FullPlot.resolve label_dx (country_data rows).

Definition investment_grade_labels (label_dx : Q) (rows : list RatingRow)
  : list (Q * Q) :=
  InvestmentGrade.resolve label_dx
    (country_data (List.filter investment_grade rows)).

(** ** The tie lines of the plots *)

(** The numeric rating columns, in the order the plots go through them. *)
Definition agency_cols : list (RatingRow -> option Q) :=
  [row_sp; row_moodys; row_fitch].

(** The entry of a country in [per_ctry] after a row of [sub] with the
    spread [x0] and the rating [y0]:
    [d = per_ctry.setdefault(ctry, {"x": x0, "ys": []})] and
    [d["ys"].append(y0)]. *)
Definition setdefault_append (x0 y0 : Q) (old : option (Q * list Q))
  : Q * list Q :=
  let d := default (x0, []) old in (fst d, (snd d ++ [y0])%list).

(** The loop body for one row of the file and one rating column: the rows
    of [sub] are those that have the column and the spread. *)
Definition per_ctry_step (col : RatingRow -> option Q)
    (per_ctry : gmap string (Q * list Q)) (row : RatingRow)
  : gmap string (Q * list Q) :=
  match col row, row_spread row with
  | Some y0, Some x0 =>
      <[row_country row :=
          setdefault_append x0 y0 (per_ctry !! row_country row)]> per_ctry
  | _, _ => per_ctry
  end.

(** [per_ctry] after the loop over the three columns. *)
Definition per_ctry (rows : list RatingRow) : gmap string (Q * list Q) :=
  fold_left (fun per col => fold_left (per_ctry_step col) rows per)
    agency_cols ∅.

(** The lesser of two numbers, the first on a tie. *)
Definition fmin (a b : Q) : Q := if Qltb b a then b else a.

(** The tie line of an entry with more than one rating: its [x], and
    [min(ys)] and [max(ys)]. *)
Definition tie_line (d : Q * list Q) : option (Q * Q * Q) :=
  match snd d with
  | y :: y' :: ys =>
      Some (fst d, fold_left fmin (y' :: ys) y, fold_left fmax (y' :: ys) y)
  | _ => None
  end.

(** ** Scraping the ratings table *)

(** [enumerate(l)] *)
Definition enumerate {A : Type} (l : list A) : list (nat * A) :=
  combine (seq 0 (length l)) l.

(** [rating_columns] and [dbrs_index] of [scrape_credit_ratings]: the
    column of each agency, when a header names it. *)
Record RatingColumns : Type := mkColumns {
  sp_column : option nat;
  moodys_column : option nat;
  fitch_column : option nat;
  dbrs_index : option nat
}.

(** The body of the loop over [enumerate(headers)]. *)
Definition find_columns_step (cols : RatingColumns) (ih : nat * string)
  : RatingColumns :=
  let '(i, header) := ih in
  let header_lower := PyCase.lower header in
  if PyStr.contains "s&p" header_lower then
    mkColumns (Some i) (moodys_column cols) (fitch_column cols)
      (dbrs_index cols)
  else if PyStr.contains "moody" header_lower then
    mkColumns (sp_column cols) (Some i) (fitch_column cols) (dbrs_index cols)
  else if PyStr.contains "fitch" header_lower then
    mkColumns (sp_column cols) (moodys_column cols) (Some i) (dbrs_index cols)
  else if PyStr.contains "dbrs" header_lower then
    mkColumns (sp_column cols) (moodys_column cols) (fitch_column cols)
      (Some i)
  else cols.

Definition find_columns (headers : list string) : RatingColumns :=
  fold_left find_columns_step (enumerate headers)
    (mkColumns None None None None).

(** [i in rating_columns.values()] *)
Definition is_rating_column (cols : RatingColumns) (i : nat) : bool :=
  existsb (fun c => bool_decide (c = Some i))
    [sp_column cols; moodys_column cols; fitch_column cols].

(** [i == dbrs_index] *)
Definition is_dbrs (cols : RatingColumns) (i : nat) : bool :=
  bool_decide (dbrs_index cols = Some i).

(** A [td] cell of the page: its text, and whether it holds a red or a
    teal circle icon. *)
Record Cell : Type := mkCell {
  cell_text : string;
  red_icons : bool;
  teal_icons : bool
}.

(** The text kept for the cell of column [i]. *)
Definition scrape_cell (cols : RatingColumns) (i : nat) (cell : Cell)
  : string :=
  let text := PyStr.strip (cell_text cell) in
  if is_rating_column cols i then
    if red_icons cell then text ++ "    [downgrade]"
    else if teal_icons cell then text ++ "    [upgrade]"
    else text
  else text.

(** What the cell of column [i] adds to [row_data]: nothing for the DBRS
    column. *)
Definition from_cell (cols : RatingColumns) (ic : nat * Cell) : list string :=
  if is_dbrs cols (fst ic) then [] else [scrape_cell cols (fst ic) (snd ic)].

(** [row_data] for the cells of one row: the DBRS column is left out. *)
Definition row_data (cols : RatingColumns) (cells : list Cell) : list string :=
  flat_map (from_cell cols) (enumerate cells).

(** What the header of column [i] adds to [new_headers]. *)
Definition from_header (cols : RatingColumns) (ih : nat * string)
  : list string :=
  if is_dbrs cols (fst ih) then [] else [snd ih].

(** [new_headers]: the headers without the DBRS one. *)
Definition new_headers (cols : RatingColumns) (headers : list string)
  : list string :=
  flat_map (from_header cols) (enumerate headers).

(** The cleaning of the [Spread] column in [scrape_bond_spreads]. *)
Definition clean_spread (s : string) : string :=
  PyStr.strip
    (PyStr.replace "bp" EmptyString
       (PyStr.replace "%" EmptyString (PyStr.replace "," EmptyString s))).

(** *** [clean_country_name] *)

Module ParenRe.

(** The text behind the first [")"], if there is one: what
    [[^)]*\)] leaves. *)
Fixpoint after_close (s : string) : option string :=
  match s with
  | EmptyString => None
  | String c r => if Ascii.eqb c ")" then Some r else after_close r
  end.

(** The text that a match of [\s*\([^)]*\)\s*] at the start of [s]
    leaves, if there is a match: every quantifier is greedy, and none has
    a choice to undo. *)
Definition match_rest (s : string) : option string :=
  match PyStr.lstrip s with
  | String c r =>
      if Ascii.eqb c "(" then PyStr.lstrip <$> after_close r else None
  | EmptyString => None
  end.

(** [re.sub(pattern, '', s)]: the matches are taken from the left and
    dropped; [skip] counts the characters of the last match that are
    still to be passed over. *)
Fixpoint sub_scan (skip : nat) (s : string) : string :=
  match s with
  | EmptyString => EmptyString
  | String c r =>
      match skip with
      | S k => sub_scan k r
      | O =>
          match match_rest s with
          | Some rest =>
              sub_scan (String.length s - String.length rest - 1) r
          | None => String c (sub_scan 0 r)
          end
      end
  end.

End ParenRe.

Definition clean_country_name (name : string) : string :=
  PyStr.strip (ParenRe.sub_scan 0 name).

(** ** Notions used in the statements *)

(** The test of the header loop: the lowered header holds [agency]. *)
Definition names (agency header : string) : bool :=
  PyStr.contains agency (PyCase.lower header).

(** The branch of the header loop that a header takes, as a test for
    each of the four branches: a branch is taken when its own test holds
    and no earlier one does. *)
Definition takes_sp (header : string) : bool := names "s&p" header.

Definition takes_moodys (header : string) : bool :=
  negb (names "s&p" header) && names "moody" header.

Definition takes_fitch (header : string) : bool :=
  negb (names "s&p" header) && negb (names "moody" header)
  && names "fitch" header.

Definition takes_dbrs (header : string) : bool :=
  negb (names "s&p" header) && negb (names "moody" header)
  && negb (names "fitch" header) && names "dbrs" header.

(** [i] is the last index of [l] whose entry passes the test [P]. *)
Definition last_where {A : Type} (P : A -> bool) (l : list A) (i : nat)
  : Prop :=
  (exists x, l !! i = Some x /\ P x = true)
  /\ forall (j : nat) (y : A), (i < j)%nat -> l !! j = Some y -> P y = false.

(** The groups [(k, G k)] for the keys [k] of [ks] that have a non-empty
    group, in the order of [ks]. *)
Definition nonempty_groups {A : Type} (G : string -> list A)
    (ks : list string) : list (string * list A) :=
  flat_map (fun k => match G k with [] => [] | _ => [(k, G k)] end) ks.


(** A text that holds neither outlook tag. *)
Definition tag_free (x : string) : Prop :=
  PyStr.contains UPGRADE x = false /\ PyStr.contains DOWNGRADE x = false.

(** [n] space characters. *)
Fixpoint spaces (n : nat) : string :=
  match n with
  | O => EmptyString
  | S k => String " " (spaces k)
  end.

(** Every character of [s] satisfies [P]. *)
Fixpoint string_forall (P : ascii -> bool) (s : string) : bool :=
  match s with
  | EmptyString => true
  | String c r => P c && string_forall P r
  end.

(** Some character of [s] satisfies [P]. *)
Fixpoint string_exists (P : ascii -> bool) (s : string) : bool :=
  match s with
  | EmptyString => false
  | String c r => P c || string_exists P r
  end.

(** The characters a match of the rating-code pattern is made of. *)
Definition code_char (c : ascii) : bool :=
  RatingRe.is_alpha c || RatingRe.is_sign c || RatingRe.is_123 c.

(** The entry of the country of [row] after the loop body for the
    column [col], from the entry [old] before it. *)
Definition entry_after (col : RatingRow -> option Q) (row : RatingRow)
    (old : option (Q * list Q)) : option (Q * list Q) :=
  match col row, row_spread row with
  | Some y0, Some x0 => Some (setdefault_append x0 y0 old)
  | _, _ => old
  end.

(** The first row of the country [k]. *)
Definition row_of (k : string) (rows : list RatingRow) : option RatingRow :=
  List.find (fun row => String.eqb (row_country row) k) rows.

(** The spread of a row with its ratings, in the order of the columns,
    when it has a spread and a rating. *)
Definition spread_and_ratings (row : RatingRow) : option (Q * list Q) :=
  match row_spread row, omap id (row_ratings row) with
  | Some x, y :: ys => Some (x, y :: ys)
  | _, _ => None
  end.

(** An ASCII character: a code point below 128. *)
Definition is_ascii (c : ascii) : bool := (N_of_ascii c <? 128)%N.

(** A lower-case letter a..z. *)
Definition is_lower_letter (c : ascii) : bool :=
  let n := N_of_ascii c in ((97 <=? n) && (n <=? 122))%N.

(** No character of [s] is [a]. *)
Definition without (a : ascii) (s : string) : bool :=
  string_forall (fun c => negb (Ascii.eqb c a)) s.

(** What stands at the head of [s] is not in the class [cls]. *)
Definition head_outside (cls : ascii -> bool) (s : string) : Prop :=
  match s with
  | EmptyString => True
  | String c _ => cls c = false
  end.

(** [n] space characters in front of [tag]. *)
Fixpoint pad (n : nat) (tag : string) : string :=
  match n with
  | O => tag
  | S k => String " " (pad k tag)
  end.

(** A rating code: a text that the pattern matches whole. *)
Definition is_code (k : string) : Prop :=
  string_forall code_char k = true /\ RatingRe.match_here k = Some k.

(** A table in which every key maps into [lo..hi] and no two keys share
    a value. *)
Definition scores_within (lo hi : Z) (t : gmap string Z) : Prop :=
  map_Forall (fun _ v => (lo <= v <= hi)%Z) t.

Definition scores_distinct (t : gmap string Z) : Prop :=
  forall k1 k2 v, t !! k1 = Some v -> t !! k2 = Some v -> k1 = k2.

(** The score of the base rating [b] in the table [t], with no outlook
    modifier. *)
Definition table_score (t : gmap string Z) (b : string) : option Q :=
  (fun v => (inject_Z v + 0)%Q) <$> t !! b.

(** A label at [(lx, ly)] collides with the placed label [used]: they are
    less than [w] apart horizontally and less than [d] vertically. *)
Definition collides (w d lx ly : Q) (used : Q * Q) : bool :=
  Qltb (Qabs (lx - fst used)) w && Qltb (Qabs (ly - snd used)) d.

(** The state of the loop over the candidates, after the candidates
    [seen]: nothing within bounds was seen and the position is still
    [ly], or the position is one seen within bounds whose overlap is
    recorded and is the least so far. *)
Definition best_so_far (lx ly : Q) (used : list (Q * Q)) (seen : list Q)
    (st : Q * option nat) : Prop :=
  match snd st with
  | None => List.filter InvestmentGrade.in_bounds seen = [] /\ fst st = ly
  | Some k =>
      In (fst st) (List.filter InvestmentGrade.in_bounds seen)
      /\ InvestmentGrade.overlap_count lx (fst st) used = k
      /\ forall c, In c (List.filter InvestmentGrade.in_bounds seen) ->
           (k <= InvestmentGrade.overlap_count lx c used)%nat
  end.

(** [n] heights from [y] upwards, [FullPlot.min_distance] apart. *)
Fixpoint ladder (y : Q) (n : nat) : list Q :=
  match n with
  | O => []
  | S k => y :: ladder (y + FullPlot.min_distance) k
  end.

(** The height [k] steps of [FullPlot.min_distance] above [y]. *)
Fixpoint top (y : Q) (k : nat) : Q :=
  match k with
  | O => y
  | S j => top (y + FullPlot.min_distance) j
  end.

(** Case analysis on the comparisons [Qle_bool] of the goal, dropping
    the cases that contradict the hypotheses. *)
Ltac decide_Qle_bool :=
  repeat match goal with
         | |- context [Qle_bool ?x ?y] =>
             let E := fresh "E" in
             destruct (Qle_bool x y) eqn:E;
             [apply Qle_bool_iff in E
             |apply not_true_iff_false in E; rewrite Qle_bool_iff in E];
             cbn [andb]; try (exfalso; lra)
         end.

(** * Properties *)

(** ** The agency tables *)

Lemma distinct_values_distinct_keys (l : list (string * Z)) k1 k2 v :
  NoDup (l.*2) -> (k1, v) ∈ l -> (k2, v) ∈ l -> k1 = k2.
Proof.
  induction l as [|[k w] l IH]; simpl; intros Hnd H1 H2.
  - by apply elem_of_nil in H1.
  - apply NoDup_cons in Hnd as [Hw Hnd].
    apply elem_of_cons in H1 as [H1|H1]; apply elem_of_cons in H2 as [H2|H2].
    + congruence.
    + injection H1 as -> ->. exfalso. apply Hw.
      apply list_elem_of_fmap. by exists (k2, w).
    + injection H2 as -> ->. exfalso. apply Hw.
      apply list_elem_of_fmap. by exists (k1, w).
    + by apply IH.
Qed.

Lemma list_to_map_distinct (l : list (string * Z)) :
  NoDup (l.*2) -> scores_distinct (list_to_map l).
Proof.
  intros Hnd k1 k2 v H1 H2.
  apply elem_of_list_to_map_2 in H1, H2.
  by eapply distinct_values_distinct_keys.
Qed.

(** C3. In each of the three agency tables every key maps to an integer
    of 1..22 and no two keys map to the same integer.  Moody's table has
    no "CC" and no "D" key, and the level it lacks, 2, is the value of no
    key; the S&P and Fitch tables use all of 1..22. *)
Theorem agency_tables_scores :
  Forall (fun t => scores_within 1 22 t /\ scores_distinct t) agency_tables
  /\ MOODYS_RATINGS !! "CC" = None
  /\ MOODYS_RATINGS !! "D" = None
  /\ map_Forall (fun _ v => v <> 2%Z) MOODYS_RATINGS
  /\ size SP_RATINGS = 22%nat
  /\ size FITCH_RATINGS = 22%nat
  /\ size MOODYS_RATINGS = 21%nat.
Proof.
  split.
  - unfold agency_tables, scores_within.
    repeat (constructor;
      [split; [compute_done | apply list_to_map_distinct; compute_done] |]).
    constructor.
  - repeat split; compute_done.
Qed.

(** ** The normaliser on the listed inputs *)

(** C1. With the S&P table, "AAA" gives 22, "BBB+    [upgrade]" gives
    15 + 1/3, "SD" gives 1 and "N/A" gives no score; the empty text gives
    no score with any table. *)
Theorem convert_rating_examples :
  convert_rating_to_numeric "AAA" SP_RATINGS = Some 22%Q
  /\ convert_rating_to_numeric "BBB+    [upgrade]" SP_RATINGS
     = Some (15 + 1 / 3)%Q
  /\ convert_rating_to_numeric "SD" SP_RATINGS = Some 1%Q
  /\ convert_rating_to_numeric "N/A" SP_RATINGS = None
  /\ forall rating_dict : gmap string Z,
       convert_rating_to_numeric EmptyString rating_dict = None.
Proof.
  repeat split; try (vm_compute; reflexivity).
Qed.

(** ** Absence for unmapped input *)

(** [convert_rating_to_numeric] is a total function: on every text and
    table it either gives no score, or the table score of the extracted
    base rating plus the outlook modifier. *)
Lemma convert_rating_cases (rating_text : string)
    (rating_dict : gmap string Z) :
  convert_rating_to_numeric rating_text rating_dict = None
  \/ exists base_numeric,
       rating_dict !! extract_base_rating rating_text = Some base_numeric
       /\ convert_rating_to_numeric rating_text rating_dict
          = Some (inject_Z base_numeric + upgrade_modifier rating_text)%Q.
Proof.
  unfold convert_rating_to_numeric.
  destruct (PyStr.is_empty rating_text); [by left|].
  destruct (String.eqb (extract_base_rating rating_text) "N/A"); [by left|].
  destruct (rating_dict !! extract_base_rating rating_text) as [v|]; [|by left].
  right. by exists v.
Qed.

Lemma extract_base_rating_sentinel (rating_text : string) :
  In rating_text [EmptyString; "N/A"; "-"; "NR"] ->
  extract_base_rating rating_text = "N/A".
Proof.
  simpl. intros [<-|[<-|[<-|[<-|[]]]]]; reflexivity.
Qed.

Lemma convert_rating_sentinel (rating_text : string)
    (rating_dict : gmap string Z) :
  In rating_text [EmptyString; "N/A"; "-"; "NR"] ->
  convert_rating_to_numeric rating_text rating_dict = None.
Proof.
  intros Hs. unfold convert_rating_to_numeric.
  rewrite (extract_base_rating_sentinel _ Hs).
  by destruct (PyStr.is_empty rating_text).
Qed.

Lemma convert_rating_unmapped (rating_text : string)
    (rating_dict : gmap string Z) :
  rating_dict !! extract_base_rating rating_text = None ->
  convert_rating_to_numeric rating_text rating_dict = None.
Proof.
  intros Hk. unfold convert_rating_to_numeric. rewrite Hk.
  destruct (PyStr.is_empty rating_text); [done|].
  by destruct (String.eqb _ _).
Qed.

(** C2. With any table, the empty text, "N/A", "-" and "NR", and every
    text whose extracted base rating is not a key of the table, give no
    score; the function has no failing path, a missing score is its only
    other outcome. *)
Theorem convert_rating_absent (rating_text : string)
    (rating_dict : gmap string Z) :
  In rating_text [EmptyString; "N/A"; "-"; "NR"]
  \/ rating_dict !! extract_base_rating rating_text = None ->
  convert_rating_to_numeric rating_text rating_dict = None.
Proof.
  intros [Hs|Hk].
  - by apply convert_rating_sentinel.
  - by apply convert_rating_unmapped.
Qed.

Lemma convert_rating_absent_witness :
  convert_rating_to_numeric "-" MOODYS_RATINGS = None
  /\ convert_rating_to_numeric "XYZ?" SP_RATINGS = None.
Proof.
  split.
  - apply (convert_rating_absent "-" MOODYS_RATINGS).
    left. simpl. tauto.
  - apply (convert_rating_absent "XYZ?" SP_RATINGS).
    right. vm_compute. reflexivity.
Defined.

(** ** The average of a row without ratings *)

Lemma mean_skipna_none (row : list (option Q)) :
  mean_skipna row = None <-> Forall (fun v => v = None) row.
Proof.
  unfold mean_skipna. split.
  - intros H. destruct (omap id row) eqn:E; [|discriminate].
    clear H. induction row as [|[q|] row IH]; [constructor|discriminate|].
    constructor; [done|]. apply IH. exact E.
  - intros H. replace (omap id row) with (@nil Q); [done|].
    induction H as [|v row -> _ IH]; [done|]. simpl. exact IH.
Qed.

(** C9. A row whose three numeric ratings are all missing has a missing
    average, not 0, and the grade categorisation reads a missing average
    as 'No Rating'; a row with a rating present has an average. *)
Theorem average_of_no_ratings :
  Average_Rating None None None = None
  /\ Ratings_Count None None None = 0%nat
  /\ categorize_by_average_rating (Average_Rating None None None) = "No Rating"
  /\ row_average "N/A" "-" "NR" = None
  /\ forall sp moodys fitch,
       Average_Rating sp moodys fitch = None
       <-> sp = None /\ moodys = None /\ fitch = None.
Proof.
  do 4 (split; [reflexivity|]).
  intros sp moodys fitch. split.
  - unfold Average_Rating. intros H%fmap_None%mean_skipna_none.
    apply Forall_cons in H as [Hsp H].
    apply Forall_cons in H as [Hmoodys H].
    apply Forall_cons in H as [Hfitch _].
    done.
  - intros (-> & -> & ->). reflexivity.
Qed.

(** ** Facts about the string primitives *)

Section StringFacts.

Implicit Types (s p r : string) (c : ascii) (P : ascii -> bool).

Lemma string_forall_app P s r :
  string_forall P (s ++ r) = string_forall P s && string_forall P r.
Proof.
  induction s as [|c s IH]; simpl; [done|].
  rewrite IH. by rewrite andb_assoc.
Qed.

Lemma string_forall_impl P (Q : ascii -> bool) s :
  (forall c, P c = true -> Q c = true) ->
  string_forall P s = true -> string_forall Q s = true.
Proof.
  intros HPQ. induction s as [|c s IH]; simpl; [done|].
  intros [Hc Hs]%andb_true_iff. rewrite (HPQ _ Hc). by apply IH.
Qed.

(** A pattern holding a character that [s] has not cannot start [s]. *)
Lemma startswith_missing_char P p s :
  string_forall P s = true ->
  string_exists (fun c => negb (P c)) p = true ->
  PyStr.startswith p s = false.
Proof.
  revert s. induction p as [|a p IH]; simpl; [done|].
  intros [|b s]; simpl; [done|].
  intros [Hb Hs]%andb_true_iff [Ha|Hp]%orb_true_iff.
  - destruct (Ascii.eqb_spec a b) as [->|]; [|done].
    rewrite Hb in Ha. discriminate.
  - rewrite (IH s Hs Hp). apply andb_false_r.
Qed.

Lemma contains_missing_char P p s :
  string_forall P s = true ->
  string_exists (fun c => negb (P c)) p = true ->
  PyStr.contains p s = false.
Proof.
  intros Hs Hp. induction s as [|b s IH].
  - simpl. rewrite orb_false_r. by apply (startswith_missing_char P).
  - cbn [PyStr.contains]. rewrite (startswith_missing_char P) by done.
    simpl in Hs. apply andb_true_iff in Hs as [_ Hs]. by apply IH.
Qed.

Lemma startswith_contains_suffix (a p s : string) :
  PyStr.startswith (a ++ p) s = true -> PyStr.contains p s = true.
Proof.
  revert s. induction a as [|c a IH]; intros s H.
  - change (PyStr.startswith p s = true) in H.
    destruct s; cbn [PyStr.contains]; rewrite H; done.
  - change (PyStr.startswith (String c (a ++ p)) s = true) in H.
    destruct s as [|b s]; [done|]. cbn [PyStr.startswith] in H.
    apply andb_true_iff in H as [_ H].
    cbn [PyStr.contains]. rewrite (IH _ H). apply orb_true_r.
Qed.

(** A text without [p] is without every pattern that ends in [p]. *)
Lemma contains_longer (a p s : string) :
  PyStr.contains p s = false -> PyStr.contains (a ++ p) s = false.
Proof.
  induction s as [|b s IH]; cbn [PyStr.contains]; intros H.
  - apply orb_false_iff in H as [H _]. rewrite orb_false_r.
    destruct (PyStr.startswith (a ++ p) "") eqn:E; [|done].
    apply startswith_contains_suffix in E. simpl in E.
    rewrite H in E. discriminate.
  - apply orb_false_iff in H as [H1 H2]. rewrite (IH H2), orb_false_r.
    destruct (PyStr.startswith (a ++ p) (String b s)) eqn:E; [|done].
    apply startswith_contains_suffix in E. cbn [PyStr.contains] in E.
    rewrite H1, H2 in E. discriminate.
Qed.

(** [replace] leaves a text without the pattern as it is. *)
Lemma replace_scan_absent (old new s : string) :
  PyStr.contains old s = false -> PyStr.replace_scan old new 0 s = s.
Proof.
  induction s as [|b s IH]; cbn [PyStr.contains PyStr.replace_scan]; [done|].
  intros [H1 H2]%orb_false_iff. rewrite H1, (IH H2). done.
Qed.

Lemma replace_absent (old new s : string) :
  PyStr.is_empty old = false ->
  PyStr.contains old s = false -> PyStr.replace old new s = s.
Proof.
  intros He Hc. unfold PyStr.replace. rewrite He.
  by apply replace_scan_absent.
Qed.

Lemma rstrip_no_space s :
  string_forall (fun c => negb (PyStr.is_space c)) s = true ->
  PyStr.rstrip s = s.
Proof.
  induction s as [|c s IH]; simpl; [done|].
  intros [Hc Hs]%andb_true_iff. apply negb_true_iff in Hc.
  rewrite Hc, (IH Hs). done.
Qed.

Lemma rstrip_idem s : PyStr.rstrip (PyStr.rstrip s) = PyStr.rstrip s.
Proof.
  induction s as [|c s IH]; simpl; [done|].
  destruct (PyStr.is_space c && PyStr.is_empty (PyStr.rstrip s)) eqn:E;
    [done|].
  simpl. rewrite IH, E. done.
Qed.

Lemma lstrip_head s :
  match PyStr.lstrip s with
  | EmptyString => True
  | String c _ => PyStr.is_space c = false
  end.
Proof.
  induction s as [|c s IH]; simpl; [done|].
  destruct (PyStr.is_space c) eqn:E; [exact IH|exact E].
Qed.

Lemma strip_idem s : PyStr.strip (PyStr.strip s) = PyStr.strip s.
Proof.
  unfold PyStr.strip. pose proof (lstrip_head s) as H.
  destruct (PyStr.lstrip s) as [|c r]; [done|].
  cbn [PyStr.rstrip]. rewrite H. cbn [andb PyStr.lstrip]. rewrite H.
  change (PyStr.rstrip (String c (PyStr.rstrip r)) = String c (PyStr.rstrip r)).
  cbn [PyStr.rstrip]. rewrite H, rstrip_idem. done.
Qed.

Lemma strip_no_space s :
  string_forall (fun c => negb (PyStr.is_space c)) s = true ->
  PyStr.strip s = s.
Proof.
  intros H. unfold PyStr.strip.
  replace (PyStr.lstrip s) with s; [by apply rstrip_no_space|].
  destruct s as [|c s]; simpl in *; [done|].
  apply andb_true_iff in H as [Hc _]. apply negb_true_iff in Hc.
  by rewrite Hc.
Qed.

End StringFacts.

(** ** Facts about the rating-code pattern *)

Section PatternFacts.

Import RatingRe.

Lemma sign_not_alpha c : is_sign c = true -> is_alpha c = false.
Proof.
  unfold is_sign.
  intros [->%Ascii.eqb_eq| ->%Ascii.eqb_eq]%orb_true_iff; reflexivity.
Qed.

Lemma digit_not_alpha c : is_123 c = true -> is_alpha c = false.
Proof.
  unfold is_123.
  intros [[->%Ascii.eqb_eq| ->%Ascii.eqb_eq]%orb_true_iff
         | ->%Ascii.eqb_eq]%orb_true_iff; reflexivity.
Qed.

Lemma digit_not_sign c : is_123 c = true -> is_sign c = false.
Proof.
  unfold is_123.
  intros [[->%Ascii.eqb_eq| ->%Ascii.eqb_eq]%orb_true_iff
         | ->%Ascii.eqb_eq]%orb_true_iff; reflexivity.
Qed.

Lemma alpha_not_space c : is_alpha c = true -> PyStr.is_space c = false.
Proof.
  unfold is_alpha, PyStr.is_space. generalize (N_of_ascii c). intros n H.
  apply orb_true_iff in H.
  repeat (apply orb_false_iff; split);
    try (apply andb_false_iff); rewrite ?N.leb_gt, ?N.eqb_neq;
    rewrite ?andb_true_iff, ?N.leb_le in H; lia.
Qed.

Lemma code_char_not_space c : code_char c = true -> PyStr.is_space c = false.
Proof.
  unfold code_char.
  intros [[H|H]%orb_true_iff|H]%orb_true_iff.
  - by apply alpha_not_space.
  - unfold is_sign in H.
    apply orb_true_iff in H as [->%Ascii.eqb_eq| ->%Ascii.eqb_eq]; reflexivity.
  - unfold is_123 in H.
    apply orb_true_iff in H as [[->%Ascii.eqb_eq| ->%Ascii.eqb_eq]%orb_true_iff
                               | ->%Ascii.eqb_eq]; reflexivity.
Qed.

Lemma take_letters_spec n s l r :
  take_letters n s = (l, r) ->
  s = l ++ r /\ string_forall is_alpha l = true /\ (String.length l <= n)%nat
  /\ ((String.length l < n)%nat -> head_outside is_alpha r).
Proof.
  revert s l r. induction n as [|n IH]; intros s l r.
  - simpl. destruct s; intros [= <- <-]; repeat split; simpl; (done || lia).
  - destruct s as [|c s]; simpl.
    + intros [= <- <-]. repeat split; simpl; (done || lia).
    + destruct (is_alpha c) eqn:Ec.
      * destruct (take_letters n s) as [l' r'] eqn:E. intros [= <- <-].
        destruct (IH _ _ _ E) as (-> & Hl & Hn & Hr).
        repeat split; simpl; [by rewrite Ec|lia|].
        intros ?. apply Hr. lia.
      * intros [= <- <-]. repeat split; simpl; (done || lia).
Qed.

Lemma take_letters_again n l r :
  string_forall is_alpha l = true -> (String.length l <= n)%nat ->
  ((String.length l < n)%nat -> head_outside is_alpha r) ->
  take_letters n (l ++ r) = (l, r).
Proof.
  revert l. induction n as [|n IH]; intros l Hl Hn Hr.
  - destruct l; simpl in *; [by destruct r|lia].
  - destruct l as [|c l]; simpl in *.
    + destruct r as [|c r]; [done|]. simpl.
      rewrite Hr by lia. done.
    + apply andb_true_iff in Hl as [-> Hl].
      rewrite IH; [done|done|lia|]. intros ?. apply Hr. lia.
Qed.

Lemma take_opt_spec cls s o r :
  take_opt cls s = (o, r) ->
  (o = EmptyString /\ r = s /\ head_outside cls s)
  \/ (exists c, o = String c EmptyString /\ cls c = true /\ s = String c r).
Proof.
  unfold take_opt. destruct s as [|c s].
  - intros [= <- <-]. by left.
  - destruct (cls c) eqn:E; intros [= <- <-].
    + right. by exists c.
    + by left.
Qed.

(** The shape of a match: letters, an optional sign, an optional digit. *)
Lemma match_here_shape s m :
  match_here s = Some m ->
  exists l sg d,
    m = l ++ sg ++ d
    /\ string_forall is_alpha l = true
    /\ (1 <= String.length l <= 3)%nat
    /\ (sg = EmptyString
        \/ exists c, sg = String c EmptyString /\ is_sign c = true)
    /\ (d = EmptyString
        \/ exists c, d = String c EmptyString /\ is_123 c = true).
Proof.
  unfold match_here.
  destruct (take_letters 3 s) as [l r1] eqn:E1.
  destruct (PyStr.is_empty l) eqn:El; [done|].
  destruct (take_opt is_sign r1) as [sg r2] eqn:E2.
  destruct (take_opt is_123 r2) as [d r3] eqn:E3.
  intros [= <-]. exists l, sg, d.
  apply take_letters_spec in E1 as (_ & Hl & Hn & _).
  repeat split; [done| |done| |].
  - destruct l; [done|simpl; lia].
  - apply take_opt_spec in E2 as [(-> & _)|(c & -> & Hc & _)];
      [by left|right; by exists c].
  - apply take_opt_spec in E3 as [(-> & _)|(c & -> & Hc & _)];
      [by left|right; by exists c].
Qed.

(** A match is made of code characters and is matched whole again. *)
Lemma match_here_fixed s m :
  match_here s = Some m ->
  string_forall code_char m = true /\ match_here m = Some m.
Proof.
  intros (l & sg & d & -> & Hl & Hn & Hsg & Hd)%match_here_shape.
  split.
  - rewrite !string_forall_app. unfold code_char.
    rewrite (string_forall_impl is_alpha); [|by intros c ->|done].
    destruct Hsg as [->|(c & -> & Hc)], Hd as [->|(c' & -> & Hc')];
      simpl; rewrite ?Hc, ?Hc', ?orb_true_r; done.
  - unfold match_here.
    rewrite (take_letters_again 3 l (sg ++ d)); [|done|lia|].
    + destruct l; [simpl in Hn; lia|]. cbn [PyStr.is_empty].
      destruct Hsg as [->|(c & -> & Hc)], Hd as [->|(c' & -> & Hc')];
        cbv [String.append take_opt].
      * done.
      * by rewrite (digit_not_sign _ Hc'), Hc'.
      * by rewrite Hc.
      * by rewrite Hc, Hc'.
    + intros _.
      destruct Hsg as [->|(c & -> & Hc)], Hd as [->|(c' & -> & Hc')];
        cbv [String.append head_outside];
        auto using sign_not_alpha, digit_not_alpha.
Qed.

Lemma search_some s m :
  search s = Some m -> exists s', match_here s' = Some m.
Proof.
  induction s as [|c s IH]; simpl.
  - done.
  - destruct (match_here (String c s)) eqn:E.
    + intros [= <-]. eauto.
    + exact IH.
Qed.

Lemma search_fixed m : match_here m = Some m -> search m = Some m.
Proof.
  intros H. destruct m as [|c m]; [discriminate H|].
  cbn [search]. by rewrite H.
Qed.

Lemma take_letters_head n c s :
  is_alpha c = true ->
  exists l r, take_letters (S n) (String c s) = (String c l, r).
Proof.
  intros H. cbn [take_letters]. rewrite H.
  destruct (take_letters n s) as [l r]. eauto.
Qed.

Lemma match_here_none s : match_here s = None -> head_outside is_alpha s.
Proof.
  destruct s as [|c s]; [done|]. unfold head_outside.
  destruct (is_alpha c) eqn:E; [|done].
  destruct (take_letters_head 2 c s E) as (l & r & Hl).
  unfold match_here. rewrite Hl. cbn [PyStr.is_empty].
  destruct (take_opt is_sign r) as [sg r2].
  destruct (take_opt is_123 r2). done.
Qed.

(** Without a match the text has no letter. *)
Lemma search_none s :
  search s = None ->
  string_forall (fun c => negb (is_alpha c)) s = true.
Proof.
  induction s as [|c s IH]; [done|]. cbn [search].
  destruct (match_here (String c s)) eqn:E; [done|].
  intros H. apply match_here_none in E. simpl in *.
  rewrite E. by apply IH.
Qed.

End PatternFacts.

(** ** Normalising an extracted base rating again *)

Section Renormalise.

Lemma tag_free_replace x :
  tag_free x ->
  PyStr.replace DOWNGRADE_4 EmptyString
    (PyStr.replace UPGRADE_4 EmptyString x) = x.
Proof.
  intros [Hu Hd].
  rewrite (replace_absent UPGRADE_4); [|done|].
  - apply replace_absent; [done|].
    change DOWNGRADE_4 with ("    " ++ DOWNGRADE).
    by apply contains_longer.
  - change UPGRADE_4 with ("    " ++ UPGRADE). by apply contains_longer.
Qed.

Lemma tag_free_modifier x : tag_free x -> upgrade_modifier x = 0%Q.
Proof.
  intros [Hu Hd]. unfold upgrade_modifier.
  change UPGRADE_4 with ("    " ++ UPGRADE).
  change DOWNGRADE_4 with ("    " ++ DOWNGRADE).
  by rewrite !contains_longer, Hu, Hd.
Qed.

Lemma code_tag_free m : string_forall code_char m = true -> tag_free m.
Proof.
  intros H. split; by apply (contains_missing_char code_char).
Qed.

Lemma no_letter_tag_free b :
  string_forall (fun c => negb (RatingRe.is_alpha c)) b = true -> tag_free b.
Proof.
  intros H.
  split; by apply (contains_missing_char (fun c => negb (RatingRe.is_alpha c))).
Qed.

(** The base rating of a whole match is the match, but for the three
    codes the extraction treats apart. *)
Lemma extract_code m :
  string_forall code_char m = true -> RatingRe.match_here m = Some m ->
  In m ["SD"; "RD"; "NR"] \/ (extract_base_rating m = m /\ tag_free m).
Proof.
  intros Hc Hm. pose proof (code_tag_free m Hc) as Hf.
  destruct (String.eqb_spec m "NR") as [->|Hnr]; [simpl; tauto|].
  destruct (String.eqb_spec m "SD") as [->|Hsd]; [simpl; tauto|].
  destruct (String.eqb_spec m "RD") as [->|Hrd]; [simpl; tauto|].
  right. split; [|done]. unfold extract_base_rating.
  rewrite (tag_free_replace m Hf).
  rewrite (strip_no_space m);
    [|by apply (string_forall_impl code_char);
        [intros c ->%code_char_not_space|]].
  destruct m as [|a m]; [by vm_compute in Hm|]. cbn [PyStr.is_empty orb].
  unfold PyStr.in_list. cbn [existsb].
  destruct (String.eqb_spec (String a m) "N/A") as [E|_];
    [rewrite E in Hm; by vm_compute in Hm|].
  destruct (String.eqb_spec (String a m) "-") as [E|_];
    [rewrite E in Hm; by vm_compute in Hm|].
  destruct (String.eqb_spec (String a m) EmptyString) as [E|_]; [done|].
  destruct (String.eqb_spec (String a m) "NR") as [E|_]; [done|].
  destruct (String.eqb_spec (String a m) "SD") as [E|_]; [done|].
  destruct (String.eqb_spec (String a m) "RD") as [E|_]; [done|].
  cbn [orb]. by rewrite (search_fixed _ Hm).
Qed.

(** A text without letters that is already stripped is its own base
    rating, but for the dash and the empty text. *)
Lemma extract_no_letter b :
  RatingRe.search b = None -> PyStr.strip b = b ->
  In b ["-"; EmptyString] \/ (extract_base_rating b = b /\ tag_free b).
Proof.
  intros Hs Hb.
  pose proof (no_letter_tag_free b (search_none b Hs)) as Hf.
  destruct (String.eqb_spec b "-") as [->|Hd]; [simpl; tauto|].
  destruct b as [|a b]; [simpl; tauto|].
  right. split; [|done]. unfold extract_base_rating.
  rewrite (tag_free_replace _ Hf), Hb.
  cbn [PyStr.is_empty orb]. unfold PyStr.in_list. cbn [existsb].
  destruct (String.eqb_spec (String a b) "N/A") as [E|_];
    [rewrite E in Hs; by vm_compute in Hs|].
  destruct (String.eqb_spec (String a b) "-") as [E|_]; [done|].
  destruct (String.eqb_spec (String a b) EmptyString) as [E|_]; [done|].
  destruct (String.eqb_spec (String a b) "NR") as [E|_];
    [rewrite E in Hs; by vm_compute in Hs|].
  destruct (String.eqb_spec (String a b) "SD") as [E|_];
    [rewrite E in Hs; by vm_compute in Hs|].
  destruct (String.eqb_spec (String a b) "RD") as [E|_];
    [rewrite E in Hs; by vm_compute in Hs|].
  cbn [orb]. by rewrite Hs.
Qed.

Lemma extract_cases x :
  tag_free x ->
  extract_base_rating x = "N/A" \/ extract_base_rating x = "D"
  \/ RatingRe.search (PyStr.strip x) = Some (extract_base_rating x)
  \/ (RatingRe.search (PyStr.strip x) = None
      /\ extract_base_rating x = PyStr.strip x).
Proof.
  intros Hf. unfold extract_base_rating.
  destruct (PyStr.is_empty x
            || PyStr.in_list x ["N/A"; "-"; EmptyString; "NR"]);
    [by left|].
  rewrite (tag_free_replace x Hf).
  destruct (PyStr.in_list (PyStr.strip x) ["SD"; "RD"]); [by right; left|].
  destruct (RatingRe.search (PyStr.strip x)) as [m|] eqn:Es; auto.
Qed.

(** The base rating of a tag-free text is one of six listed codes or a
    fixed point of the extraction. *)
Lemma extract_twice x :
  tag_free x ->
  In (extract_base_rating x) ["SD"; "RD"; "N/A"; "NR"; "-"; EmptyString]
  \/ (extract_base_rating (extract_base_rating x) = extract_base_rating x
      /\ tag_free (extract_base_rating x)).
Proof.
  intros Hf.
  destruct (extract_cases x Hf) as [->|[->|[Es|[Es ->]]]].
  - simpl; tauto.
  - right. split; [reflexivity|split; reflexivity].
  - destruct (search_some _ _ Es) as (s' & Hm).
    destruct (match_here_fixed _ _ Hm) as [Hc Hm'].
    destruct (extract_code _ Hc Hm') as [Hin|H]; [|by right].
    left. simpl in *. tauto.
  - destruct (extract_no_letter _ Es (strip_idem x)) as [Hin|H]; [|by right].
    left. simpl in *. tauto.
Qed.

End Renormalise.

Section RenormaliseTheorem.

Lemma convert_tag_free x t :
  tag_free x -> t !! "N/A" = None -> PyStr.is_empty x = false ->
  convert_rating_to_numeric x t = table_score t (extract_base_rating x).
Proof.
  intros Hf Hna Hx. unfold convert_rating_to_numeric, table_score. rewrite Hx.
  destruct (String.eqb_spec (extract_base_rating x) "N/A") as [->|_].
  - by rewrite Hna.
  - rewrite (tag_free_modifier x Hf).
    by destruct (t !! extract_base_rating x).
Qed.

Lemma agency_table_cases t :
  In t agency_tables ->
  t = SP_RATINGS \/ t = MOODYS_RATINGS \/ t = FITCH_RATINGS.
Proof. simpl. intuition. Qed.

(** C8, as the code has it.  For a tag-free text and an agency table,
    normalising the extracted base rating gives the score of the text,
    unless the base rating is "SD" or "RD" and the table has a "D"
    entry. *)
Theorem renormalise_base_rating (x : string) (t : gmap string Z) :
  tag_free x -> In t agency_tables ->
  (extract_base_rating x = "SD" \/ extract_base_rating x = "RD" ->
   t !! "D" = None) ->
  convert_rating_to_numeric (extract_base_rating x) t
  = convert_rating_to_numeric x t.
Proof.
  intros Hf Ht Hd.
  assert (Hna : t !! "N/A" = None /\ t !! EmptyString = None).
  { destruct (agency_table_cases t Ht) as [->|[->| ->]]; by vm_compute. }
  destruct Hna as [Hna He].
  destruct (PyStr.is_empty x) eqn:Ex.
  { destruct x; [|done]. reflexivity. }
  rewrite (convert_tag_free x t Hf Hna Ex).
  destruct (extract_twice x Hf) as [Hin|[Hfix Hfb]].
  - revert Hd Hin. generalize (extract_base_rating x). intros b Hd Hin.
    destruct (agency_table_cases t Ht) as [->|[->| ->]];
      simpl in Hin;
      destruct Hin as [<-|[<-|[<-|[<-|[<-|[<-|[]]]]]]];
      try (vm_compute; reflexivity);
      exfalso; (assert (Hd' := Hd (or_introl eq_refl))
                || assert (Hd' := Hd (or_intror eq_refl)));
      by vm_compute in Hd'.
  - destruct (PyStr.is_empty (extract_base_rating x)) eqn:Eb.
    + destruct (extract_base_rating x); [|done].
      unfold table_score. by rewrite He.
    + rewrite (convert_tag_free _ t Hfb Hna Eb). by rewrite Hfix.
Qed.

Lemma renormalise_base_rating_witness :
  convert_rating_to_numeric (extract_base_rating " Baa1 (stable)")
    MOODYS_RATINGS
  = convert_rating_to_numeric " Baa1 (stable)" MOODYS_RATINGS.
Proof.
  apply (renormalise_base_rating " Baa1 (stable)" MOODYS_RATINGS).
  - split; reflexivity.
  - simpl. tauto.
  - intros _. reflexivity.
Defined.

(** C8 as stated fails: "SD." holds no tag, its base rating "SD" is no
    key of the S&P table, and normalising "SD" again gives the score of
    "D". *)
Lemma renormalise_counterexample :
  tag_free "SD."
  /\ In SP_RATINGS agency_tables
  /\ extract_base_rating "SD." = "SD"
  /\ convert_rating_to_numeric "SD." SP_RATINGS = None
  /\ convert_rating_to_numeric (extract_base_rating "SD.") SP_RATINGS
     = Some 1%Q
  /\ ~ (forall x t, tag_free x -> In t agency_tables ->
          convert_rating_to_numeric (extract_base_rating x) t
          = convert_rating_to_numeric x t).
Proof.
  assert (Hf : tag_free "SD.") by (split; reflexivity).
  repeat split; try reflexivity; try apply Hf; try (simpl; tauto).
  intros H. specialize (H "SD." SP_RATINGS Hf (or_introl eq_refl)).
  vm_compute in H. discriminate.
Qed.

(** Where the exception applies the two scores do differ. *)
Lemma renormalise_default_indicator (x : string) (t : gmap string Z) :
  tag_free x -> t = SP_RATINGS \/ t = FITCH_RATINGS ->
  extract_base_rating x = "SD" \/ extract_base_rating x = "RD" ->
  convert_rating_to_numeric x t = None
  /\ convert_rating_to_numeric (extract_base_rating x) t = Some 1%Q.
Proof.
  intros Hf Ht Hb. split.
  - apply convert_rating_unmapped.
    destruct Ht as [-> | ->], Hb as [-> | ->]; reflexivity.
  - destruct Ht as [-> | ->], Hb as [-> | ->]; reflexivity.
Qed.

End RenormaliseTheorem.

(** ** The outer placement loop *)

Section Placement.

Variable adjust : Q -> Q -> list (Q * Q) -> Q.
Variable label_dx : Q.

Lemma place_acc_length (data : list LabelPoint) (acc : list (Q * Q)) :
  length (fold_left (place_step adjust label_dx) data acc)
  = (length acc + length data)%nat.
Proof.
  revert acc. induction data as [|p data IH]; intros acc; simpl; [lia|].
  rewrite IH. unfold place_step. rewrite length_app. simpl. lia.
Qed.

Lemma place_acc_xs (data : list LabelPoint) (acc : list (Q * Q)) :
  map fst (fold_left (place_step adjust label_dx) data acc)
  = (map fst acc ++ map (fun p => (pt_x p + label_dx)%Q) data)%list.
Proof.
  revert acc. induction data as [|p data IH]; intros acc; simpl.
  - by rewrite app_nil_r.
  - rewrite IH. unfold place_step. rewrite map_app. simpl.
    by rewrite <- app_assoc.
Qed.

(** The positions already appended are never touched again. *)
Lemma place_acc_take (data : list LabelPoint) (acc : list (Q * Q)) (n : nat) :
  fold_left (place_step adjust label_dx) (take n data) acc
  = take (length acc + n) (fold_left (place_step adjust label_dx) data acc).
Proof.
  revert acc n. induction data as [|p data IH]; intros acc n.
  - rewrite take_nil. simpl. rewrite take_ge; [done|lia].
  - destruct n as [|n]; simpl.
    + specialize (IH (place_step adjust label_dx acc p) 0%nat).
      rewrite take_0 in IH. simpl in IH.
      assert (Hacc :
                take (length acc) (place_step adjust label_dx acc p) = acc).
      { unfold place_step. by rewrite take_app_length. }
      rewrite <- Hacc at 1. rewrite IH at 1. rewrite take_take.
      f_equal. unfold place_step. rewrite length_app. simpl. lia.
    + rewrite IH. f_equal. unfold place_step.
      rewrite length_app. simpl. lia.
Qed.

Lemma place_length (data : list LabelPoint) :
  length (place adjust label_dx data) = length data.
Proof. exact (place_acc_length data []). Qed.

Lemma place_xs (data : list LabelPoint) :
  map fst (place adjust label_dx data)
  = map (fun p => (pt_x p + label_dx)%Q) data.
Proof. exact (place_acc_xs data []). Qed.

Lemma place_take (data : list LabelPoint) (n : nat) :
  place adjust label_dx (take n data) = take n (place adjust label_dx data).
Proof. exact (place_acc_take data [] n). Qed.

End Placement.

(** ** Sorting *)

Section Sorting.

Context {A : Type} (lt : A -> A -> bool).
Hypothesis lt_asym : forall a b, lt a b = true -> lt b a = false.

Lemma insert_by_perm (p : A) (l : list A) :
  Permutation (insert_by lt p l) (p :: l).
Proof.
  induction l as [|q l IH]; simpl; [done|].
  destruct (lt q p); [|done].
  rewrite IH. apply perm_swap.
Qed.

Lemma sort_by_perm (l : list A) : Permutation (sort_by lt l) l.
Proof.
  induction l as [|p l IH]; simpl; [done|].
  rewrite insert_by_perm. by constructor.
Qed.

Lemma sort_by_length (l : list A) : length (sort_by lt l) = length l.
Proof. apply Permutation_length, sort_by_perm. Qed.

Lemma insert_by_sorted (p : A) (l : list A) :
  Sorted (fun a b => lt b a = false) l ->
  Sorted (fun a b => lt b a = false) (insert_by lt p l).
Proof.
  induction 1 as [|q l Hs IH Hhd]; simpl; [by repeat constructor|].
  destruct (lt q p) eqn:E.
  - constructor; [done|].
    destruct Hhd as [|r l Hr]; simpl.
    + constructor. by apply lt_asym.
    + destruct (lt r p); constructor; [done|by apply lt_asym].
  - constructor; [by constructor|by constructor].
Qed.

Lemma sort_by_sorted (l : list A) :
  Sorted (fun a b => lt b a = false) (sort_by lt l).
Proof.
  induction l as [|p l IH]; simpl; [constructor|].
  by apply insert_by_sorted.
Qed.

End Sorting.

Lemma Qltb_lt (a b : Q) : Qltb a b = true <-> (a < b)%Q.
Proof.
  unfold Qltb. rewrite negb_true_iff. split.
  - intros H. apply Qnot_le_lt. intros Hle.
    apply Qle_bool_iff in Hle. congruence.
  - intros H. destruct (Qle_bool b a) eqn:E; [|done].
    apply Qle_bool_iff in E. exfalso. by apply (Qlt_not_le a b).
Qed.

Lemma Qltb_ge (a b : Q) : Qltb a b = false <-> (b <= a)%Q.
Proof.
  unfold Qltb. rewrite negb_false_iff. apply Qle_bool_iff.
Qed.

Lemma full_key_asym p q :
  FullPlot.key_lt p q = true -> FullPlot.key_lt q p = false.
Proof.
  unfold FullPlot.key_lt. rewrite Qltb_lt, Qltb_ge. apply Qlt_le_weak.
Qed.

Lemma ig_key_asym p q :
  InvestmentGrade.key_lt p q = true -> InvestmentGrade.key_lt q p = false.
Proof.
  unfold InvestmentGrade.key_lt.
  rewrite orb_true_iff, andb_true_iff, orb_false_iff, andb_false_iff.
  rewrite !Qltb_lt, !Qltb_ge, Qeq_bool_iff.
  intros [H|[H1 H2]].
  - split; [lra|]. left. destruct (Qeq_bool (pt_x q) (pt_x p)) eqn:E; [|done].
    apply Qeq_bool_iff in E. lra.
  - split; [lra|]. right. lra.
Qed.

(** ** One position for every point *)

(** C5. Both resolvers give one position for every point of
    [country_data], whatever the points: the result has the length of the
    input, the points are visited in sorted order (a stable sort of the
    input by its key), and the position at an index depends on the sorted
    points up to that index only.  The functions are total, so no input
    is left without a position. *)
Theorem resolver_one_position_each (label_dx : Q)
    (country_data : list LabelPoint) :
  (length (FullPlot.resolve label_dx country_data) = length country_data
   /\ Permutation (sort_by FullPlot.key_lt country_data) country_data
   /\ Sorted (fun p q => FullPlot.key_lt q p = false)
        (sort_by FullPlot.key_lt country_data)
   /\ forall n,
        place FullPlot.adjust label_dx
          (take n (sort_by FullPlot.key_lt country_data))
        = take n (FullPlot.resolve label_dx country_data))
  /\ (length (InvestmentGrade.resolve label_dx country_data)
      = length country_data
      /\ Permutation (sort_by InvestmentGrade.key_lt country_data) country_data
      /\ Sorted (fun p q => InvestmentGrade.key_lt q p = false)
           (sort_by InvestmentGrade.key_lt country_data)
      /\ forall n,
           place InvestmentGrade.adjust label_dx
             (take n (sort_by InvestmentGrade.key_lt country_data))
           = take n (InvestmentGrade.resolve label_dx country_data)).
Proof.
  split; (split; [|split; [|split]]).
  - unfold FullPlot.resolve. by rewrite place_length, sort_by_length.
  - apply sort_by_perm.
  - apply sort_by_sorted, full_key_asym.
  - intros n. apply place_take.
  - unfold InvestmentGrade.resolve. by rewrite place_length, sort_by_length.
  - apply sort_by_perm.
  - apply sort_by_sorted, ig_key_asym.
  - intros n. apply place_take.
Qed.

(** ** The horizontal coordinate *)

(** C10. In both resolvers the horizontal coordinate of every placed
    label is that of its point plus [label_dx]; a collision moves the
    vertical coordinate only. *)
Theorem label_x_unchanged (label_dx : Q) (country_data : list LabelPoint) :
  map fst (FullPlot.resolve label_dx country_data)
  = map (fun p => (pt_x p + label_dx)%Q) (sort_by FullPlot.key_lt country_data)
  /\ map fst (InvestmentGrade.resolve label_dx country_data)
     = map (fun p => (pt_x p + label_dx)%Q)
         (sort_by InvestmentGrade.key_lt country_data).
Proof.
  split; apply place_xs.
Qed.

(** ** The choice of a position in the investment-grade plot *)

Lemma Qltb_abs_self (a c : Q) : (0 < c)%Q -> Qltb (Qabs (a - a)) c = true.
Proof.
  intros Hc. apply Qltb_lt. apply Qabs_case; intros; lra.
Qed.

Section Displacement.

Import InvestmentGrade.

Lemma best_step_keeps (lx ly : Q) (used : list (Q * Q)) (seen : list Q)
    (st : Q * option nat) (c : Q) :
  best_so_far lx ly used seen st ->
  best_so_far lx ly used (seen ++ [c])%list (best_step lx used st c).
Proof.
  unfold best_so_far, best_step. rewrite List.filter_app. cbn [List.filter].
  destruct (in_bounds c) eqn:Eb.
  - destruct st as [b [k|]]; cbn [fst snd below].
    + intros (Hin & Hk & Hmin).
      destruct (Nat.ltb_spec (overlap_count lx c used) k) as [Hlt|Hge];
        cbn [fst snd].
      * split; [apply in_or_app; right; by left|]. split; [done|].
        intros c' [Hc'|[<-|[]]]%in_app_or; [|lia].
        specialize (Hmin c' Hc'). lia.
      * split; [apply in_or_app; by left|]. split; [done|].
        intros c' [Hc'|[<-|[]]]%in_app_or; [by apply Hmin|lia].
    + intros [Hnil _]. rewrite Hnil. cbn [app fst snd].
      split; [by left|]. split; [done|].
      intros c' [<-|[]]. lia.
  - rewrite app_nil_r. done.
Qed.

Lemma best_fold_keeps (lx ly : Q) (used : list (Q * Q)) (cs seen : list Q)
    (st : Q * option nat) :
  best_so_far lx ly used seen st ->
  best_so_far lx ly used (seen ++ cs)%list
    (fold_left (best_step lx used) cs st).
Proof.
  revert seen st. induction cs as [|c cs IH]; intros seen st H; simpl.
  - by rewrite app_nil_r.
  - replace (seen ++ c :: cs)%list with ((seen ++ [c]) ++ cs)%list
      by (by rewrite <- app_assoc).
    apply IH. by apply best_step_keeps.
Qed.

(** What [best_position] returns. *)
Lemma best_position_spec (lx ly used_y : Q) (used : list (Q * Q)) :
  let C := List.filter in_bounds (candidates used_y) in
  (C = [] /\ best_position lx ly used_y used = ly)
  \/ (In (best_position lx ly used_y used) C
      /\ forall c, In c C ->
           (overlap_count lx (best_position lx ly used_y used) used
            <= overlap_count lx c used)%nat).
Proof.
  intros C. unfold best_position.
  pose proof (best_fold_keeps lx ly used (candidates used_y) [] (ly, None))
    as H.
  cbn [app] in H. fold C in H.
  destruct (fold_left (best_step lx used) (candidates used_y) (ly, None))
    as [b [k|]]; unfold best_so_far in H; cbn [fst snd] in *.
  - right. destruct H as (Hin & Hk & Hmin); [by split|].
    split; [done|]. intros c Hc. rewrite Hk. by apply Hmin.
  - left. apply H. by split.
Qed.

(** The inner loop stops at the first placed label that overlaps. *)
Lemma adjust_from_find (lx ly : Q) (used rest : list (Q * Q)) :
  adjust_from lx ly used rest
  = match List.find (collides window min_distance lx ly) rest with
    | Some u => best_position lx ly (snd u) used
    | None => ly
    end.
Proof.
  induction rest as [|[ux uy] rest IH]; cbn [adjust_from List.find]; [done|].
  unfold collides at 1. cbn [fst snd].
  destruct (Qltb (Qabs (lx - ux)) window); cbn [andb]; [|exact IH].
  destruct (Qltb (Qabs (ly - uy)) min_distance); [done|exact IH].
Qed.

End Displacement.

(** ** Outlook tags and the default indicators *)

(** C4, at the input where the code departs from it.  The modifier is
    found in "SD[upgrade]", as the tag is looked for with and without the
    four spaces, but only the tag with four spaces is removed before the
    comparison with "SD" and "RD": the base rating is "SD", no key of the
    S&P table, and the text has no score.  With four spaces or more the
    score is that of "D" plus or minus 1/3, and a table key keeps its
    score with the tag right behind it. *)
Theorem outlook_tag_default_indicator :
  upgrade_modifier "SD[upgrade]" = (1 / 3)%Q
  /\ extract_base_rating "SD[upgrade]" = "SD"
  /\ SP_RATINGS !! "SD" = None
  /\ SP_RATINGS !! "D" = Some 1%Z
  /\ convert_rating_to_numeric "SD[upgrade]" SP_RATINGS = None
  /\ convert_rating_to_numeric "SD   [upgrade]" SP_RATINGS = None
  /\ convert_rating_to_numeric "RD [downgrade]" FITCH_RATINGS = None
  /\ convert_rating_to_numeric "SD    [upgrade]" SP_RATINGS
     = Some (1 + 1 / 3)%Q
  /\ convert_rating_to_numeric "RD     [downgrade]" FITCH_RATINGS
     = Some (1 + -1 / 3)%Q
  /\ convert_rating_to_numeric "BBB+[upgrade]" SP_RATINGS
     = Some (15 + 1 / 3)%Q.
Proof.
  repeat split; vm_compute; reflexivity.
Qed.

(** ** Outlook tags behind any number of spaces *)

Section OutlookTags.

Implicit Types (k rest tag : string) (n j : nat).

Lemma pad_spaces n tag : spaces n ++ tag = pad n tag.
Proof. induction n as [|n IH]; [done|]. simpl. by rewrite <- IH. Qed.

Lemma spaces_forall (P : ascii -> bool) n :
  P " "%char = true -> string_forall P (spaces n) = true.
Proof. intros H. induction n as [|n IH]; simpl; [done|]. by rewrite H, IH. Qed.

(** A pattern whose first character [k] has not does not start in [k]. *)
Lemma contains_skip_prefix (a : ascii) (p k rest : string) :
  string_forall (fun c => negb (Ascii.eqb a c)) k = true ->
  PyStr.contains (String a p) (k ++ rest) = PyStr.contains (String a p) rest.
Proof.
  induction k as [|c k IH]; [done|]. simpl.
  intros [Hc Hk]%andb_true_iff. apply negb_true_iff in Hc.
  change (String c k ++ rest) with (String c (k ++ rest)).
  cbn [PyStr.contains PyStr.startswith]. rewrite Hc. cbn [andb orb].
  by apply IH.
Qed.

Lemma replace_skip_prefix (a : ascii) (p new k rest : string) :
  string_forall (fun c => negb (Ascii.eqb a c)) k = true ->
  PyStr.replace_scan (String a p) new 0 (k ++ rest)
  = k ++ PyStr.replace_scan (String a p) new 0 rest.
Proof.
  induction k as [|c k IH]; [done|]. simpl.
  intros [Hc Hk]%andb_true_iff. apply negb_true_iff in Hc.
  change (String c k ++ rest) with (String c (k ++ rest)).
  cbn [PyStr.replace_scan PyStr.startswith]. rewrite Hc. cbn [andb].
  by rewrite IH.
Qed.

Lemma code_no_space k :
  string_forall code_char k = true ->
  string_forall (fun c => negb (Ascii.eqb " " c)) k = true.
Proof.
  apply string_forall_impl. intros c Hc.
  destruct (Ascii.eqb_spec " " c) as [<-|]; [discriminate Hc|done].
Qed.

Lemma code_no_bracket k :
  string_forall code_char k = true ->
  string_forall (fun c => negb (Ascii.eqb "[" c)) k = true.
Proof.
  apply string_forall_impl. intros c Hc.
  destruct (Ascii.eqb_spec "[" c) as [<-|]; [discriminate Hc|done].
Qed.

Lemma contains_tag_pad (a : ascii) (p tag : string) n :
  Ascii.eqb a " "%char = false ->
  PyStr.contains (String a p) (pad n tag) = PyStr.contains (String a p) tag.
Proof.
  intros Ha. induction n as [|n IH]; [done|].
  cbn [pad PyStr.contains PyStr.startswith]. by rewrite Ha, IH.
Qed.

(** The modifier of a code followed by a tag. *)
Lemma modifier_tagged k n :
  string_forall code_char k = true ->
  upgrade_modifier (k ++ pad n UPGRADE) = (1 / 3)%Q
  /\ upgrade_modifier (k ++ pad n DOWNGRADE) = (-1 / 3)%Q.
Proof.
  intros Hk%code_no_bracket. unfold upgrade_modifier.
  assert (Hu : forall tag,
             PyStr.contains UPGRADE (k ++ pad n tag)
             = PyStr.contains UPGRADE tag).
  { intros tag. unfold UPGRADE.
    rewrite contains_skip_prefix by done. by apply contains_tag_pad. }
  assert (Hd : forall tag,
             PyStr.contains DOWNGRADE (k ++ pad n tag)
             = PyStr.contains DOWNGRADE tag).
  { intros tag. unfold DOWNGRADE.
    rewrite contains_skip_prefix by done. by apply contains_tag_pad. }
  split.
  - rewrite (Hu UPGRADE). by rewrite orb_true_r.
  - change UPGRADE_4 with ("    " ++ UPGRADE).
    rewrite contains_longer by (by rewrite Hu).
    rewrite (Hu DOWNGRADE), (Hd DOWNGRADE). cbn. by rewrite orb_true_r.
Qed.

(** Removing the tag that has four spaces in front. *)
Lemma replace_upgrade_pad j :
  PyStr.replace_scan UPGRADE_4 EmptyString 0 (pad (4 + j) UPGRADE) = spaces j.
Proof.
  induction j as [|j IH]; [reflexivity|].
  change (pad (4 + S j) UPGRADE) with (String " " (pad (4 + j) UPGRADE)).
  cbn [PyStr.replace_scan].
  replace (PyStr.startswith UPGRADE_4 (String " " (pad (4 + j) UPGRADE)))
    with false by reflexivity.
  by rewrite IH.
Qed.

Lemma replace_downgrade_pad j :
  PyStr.replace_scan DOWNGRADE_4 EmptyString 0 (pad (4 + j) DOWNGRADE)
  = spaces j.
Proof.
  induction j as [|j IH]; [reflexivity|].
  change (pad (4 + S j) DOWNGRADE) with (String " " (pad (4 + j) DOWNGRADE)).
  cbn [PyStr.replace_scan].
  replace (PyStr.startswith DOWNGRADE_4 (String " " (pad (4 + j) DOWNGRADE)))
    with false by reflexivity.
  by rewrite IH.
Qed.

Lemma spaces_tag_free j :
  PyStr.contains UPGRADE_4 (spaces j) = false
  /\ PyStr.contains DOWNGRADE_4 (spaces j) = false.
Proof.
  split; apply (contains_missing_char (Ascii.eqb " "));
    auto using spaces_forall.
Qed.

(** The text behind the code after both removals: the tag goes when four
    spaces or more stand in front of it, and stays otherwise. *)
Lemma pad_replaced n tag :
  tag = UPGRADE \/ tag = DOWNGRADE ->
  PyStr.replace_scan DOWNGRADE_4 EmptyString 0
    (PyStr.replace_scan UPGRADE_4 EmptyString 0 (pad n tag))
  = if (4 <=? n)%nat then spaces (n - 4) else pad n tag.
Proof.
  intros Htag.
  destruct n as [|[|[|[|j]]]];
    [destruct Htag as [-> | ->]; reflexivity ..|].
  change (S (S (S (S j)))) with (4 + j)%nat.
  replace (4 + j - 4)%nat with j by lia.
  replace (4 <=? 4 + j)%nat with true by (symmetry; apply Nat.leb_le; lia).
  destruct Htag as [-> | ->].
  - rewrite replace_upgrade_pad.
    apply replace_scan_absent, spaces_tag_free.
  - rewrite (replace_scan_absent UPGRADE_4).
    + apply replace_downgrade_pad.
    + change UPGRADE_4 with ("    " ++ UPGRADE). apply contains_longer.
      unfold UPGRADE. by rewrite contains_tag_pad.
Qed.

Lemma rstrip_spaces j : PyStr.rstrip (spaces j) = EmptyString.
Proof. induction j as [|j IH]; simpl; [done|]. by rewrite IH. Qed.

Lemma rstrip_code_spaces k j :
  string_forall code_char k = true -> PyStr.rstrip (k ++ spaces j) = k.
Proof.
  induction k as [|c k IH]; [intros _; apply rstrip_spaces|].
  simpl. intros [Hc Hk]%andb_true_iff.
  change (String c k ++ spaces j) with (String c (k ++ spaces j)).
  cbn [PyStr.rstrip]. rewrite (IH Hk), (code_char_not_space _ Hc). done.
Qed.

Lemma rstrip_code_fixed k rest :
  string_forall code_char k = true ->
  PyStr.rstrip rest = rest -> PyStr.is_empty rest = false ->
  PyStr.rstrip (k ++ rest) = k ++ rest.
Proof.
  intros Hk Hr He. induction k as [|c k IH]; [done|].
  simpl in Hk. apply andb_true_iff in Hk as [Hc Hk].
  change (String c k ++ rest) with (String c (k ++ rest)).
  cbn [PyStr.rstrip]. rewrite (IH Hk), (code_char_not_space _ Hc). done.
Qed.

Lemma lstrip_code k rest :
  is_code k -> PyStr.lstrip (k ++ rest) = k ++ rest.
Proof.
  intros [Hk Hm]. destruct k as [|c k]; [discriminate Hm|].
  simpl in Hk. apply andb_true_iff in Hk as [Hc _].
  change (String c k ++ rest) with (String c (k ++ rest)).
  cbn [PyStr.lstrip]. by rewrite (code_char_not_space _ Hc).
Qed.

Lemma pad_rstrip n tag :
  tag = UPGRADE \/ tag = DOWNGRADE ->
  PyStr.rstrip (pad n tag) = pad n tag /\ PyStr.is_empty (pad n tag) = false.
Proof.
  intros Htag. induction n as [|n [IH1 IH2]].
  - destruct Htag as [-> | ->]; by split.
  - split; [|done]. cbn [pad PyStr.rstrip]. rewrite IH1, IH2.
    by rewrite andb_false_r.
Qed.

End OutlookTags.

Section OutlookTagScores.

Implicit Types (k rest tag : string) (n : nat).

Lemma append_assoc3 (a b c : string) : (a ++ b) ++ c = a ++ b ++ c.
Proof.
  induction a as [|x a IH]; [done|].
  change ((String x a ++ b) ++ c) with (String x ((a ++ b) ++ c)).
  by rewrite IH.
Qed.

Lemma head_outside_code rest :
  head_outside code_char rest ->
  head_outside RatingRe.is_alpha rest
  /\ head_outside RatingRe.is_sign rest
  /\ head_outside RatingRe.is_123 rest.
Proof.
  destruct rest as [|c rest]; [done|]. unfold head_outside, code_char.
  intros [[H1 H2]%orb_false_iff H3]%orb_false_iff. done.
Qed.

(** A code is matched whole again with a text behind it that does not
    begin with a code character. *)
Lemma match_here_app k rest :
  is_code k -> head_outside code_char rest ->
  RatingRe.match_here (k ++ rest) = Some k.
Proof.
  intros [_ Hm] (Ha & Hs & Hd)%head_outside_code.
  destruct (match_here_shape _ _ Hm) as (l & sg & d & -> & Hl & Hn & Hsg & Hdg).
  rewrite !append_assoc3. unfold RatingRe.match_here.
  rewrite (take_letters_again 3 l (sg ++ d ++ rest)); [|done|lia|].
  - destruct l; [simpl in Hn; lia|]. cbn [PyStr.is_empty].
    destruct Hsg as [->|(c & -> & Hc)], Hdg as [->|(c' & -> & Hc')];
      cbv [String.append RatingRe.take_opt].
    + destruct rest as [|r rest]; [done|]. simpl in Hs, Hd.
      by rewrite Hs, Hd.
    + by rewrite (digit_not_sign _ Hc'), Hc'.
    + rewrite Hc. destruct rest as [|r rest]; [done|]. simpl in Hd.
      by rewrite Hd.
    + by rewrite Hc, Hc'.
  - intros _.
    destruct Hsg as [->|(c & -> & Hc)], Hdg as [->|(c' & -> & Hc')];
      cbv [String.append]; unfold head_outside;
      auto using sign_not_alpha, digit_not_alpha.
Qed.

Lemma code_not_empty k : is_code k -> PyStr.is_empty k = false.
Proof. intros [_ Hm]. destruct k; [discriminate Hm|done]. Qed.

Lemma code_app_not_empty k rest :
  is_code k -> PyStr.is_empty (k ++ rest) = false.
Proof. intros [_ Hm]. destruct k; [discriminate Hm|done]. Qed.

Lemma search_app k rest :
  is_code k -> head_outside code_char rest ->
  RatingRe.search (k ++ rest) = Some k.
Proof.
  intros Hk Hr. pose proof (match_here_app k rest Hk Hr) as H.
  destruct (k ++ rest); cbn [RatingRe.search]; by rewrite H.
Qed.

Lemma pad_head n tag :
  tag = UPGRADE \/ tag = DOWNGRADE -> head_outside code_char (pad n tag).
Proof. intros [-> | ->]; by destruct n. Qed.

Lemma pad_bracket n tag :
  tag = UPGRADE \/ tag = DOWNGRADE ->
  string_forall (fun c => negb (Ascii.eqb "[" c)) (pad n tag) = false.
Proof.
  intros Htag. induction n as [|n IH]; [by destruct Htag as [-> | ->]|].
  cbn [pad string_forall]. by rewrite IH.
Qed.

Lemma eqb_forall_differ (P : ascii -> bool) (s s' : string) :
  string_forall P s = false -> string_forall P s' = true ->
  String.eqb s s' = false.
Proof.
  intros Hs Hs'. destruct (String.eqb_spec s s') as [->|]; [|done].
  congruence.
Qed.

Lemma tagged_not_listed k n tag (xs : list string) :
  tag = UPGRADE \/ tag = DOWNGRADE ->
  Forall (fun x => string_forall (fun c => negb (Ascii.eqb "[" c)) x = true)
    xs ->
  PyStr.in_list (k ++ pad n tag) xs = false.
Proof.
  intros Htag Hxs. unfold PyStr.in_list.
  induction Hxs as [|x xs Hx _ IH]; [done|]. cbn [existsb].
  rewrite IH, orb_false_r.
  apply (eqb_forall_differ (fun c => negb (Ascii.eqb "[" c))); [|done].
  rewrite string_forall_app, pad_bracket by done. apply andb_false_r.
Qed.

Lemma replace_tag_code k rest :
  string_forall code_char k = true ->
  PyStr.replace UPGRADE_4 EmptyString (k ++ rest)
  = k ++ PyStr.replace_scan UPGRADE_4 EmptyString 0 rest
  /\ PyStr.replace DOWNGRADE_4 EmptyString (k ++ rest)
     = k ++ PyStr.replace_scan DOWNGRADE_4 EmptyString 0 rest.
Proof.
  intros Hk%code_no_space.
  split; apply (replace_skip_prefix " " _ EmptyString k rest Hk).
Qed.

(** The base rating of a code followed by spaces and a tag. *)
Lemma extract_tagged k n tag :
  is_code k -> tag = UPGRADE \/ tag = DOWNGRADE ->
  extract_base_rating (k ++ pad n tag)
  = if (4 <=? n)%nat && PyStr.in_list k ["SD"; "RD"] then "D" else k.
Proof.
  intros Hk Htag. pose proof Hk as [Hc Hm]. unfold extract_base_rating.
  rewrite (code_app_not_empty k _ Hk).
  rewrite tagged_not_listed by (done || by repeat constructor).
  cbn [orb]. rewrite (proj1 (replace_tag_code k _ Hc)).
  rewrite (proj2 (replace_tag_code k _ Hc)), pad_replaced by done.
  unfold PyStr.strip. rewrite lstrip_code by done.
  destruct (4 <=? n)%nat; cbn [andb].
  - rewrite rstrip_code_spaces by done.
    destruct (PyStr.in_list k ["SD"; "RD"]); [done|].
    by rewrite (search_fixed _ Hm).
  - destruct (pad_rstrip n tag Htag) as [Hr He].
    rewrite rstrip_code_fixed by done.
    rewrite tagged_not_listed by (done || by repeat constructor).
    by rewrite search_app by (done || by apply pad_head).
Qed.

(** The score of a code followed by spaces and a tag. *)
Lemma convert_tagged k n (t : gmap string Z) (v : Z) :
  is_code k ->
  t !! (if (4 <=? n)%nat && PyStr.in_list k ["SD"; "RD"] then "D" else k)
  = Some v ->
  convert_rating_to_numeric (k ++ spaces n ++ UPGRADE) t
  = Some (inject_Z v + 1 / 3)%Q
  /\ convert_rating_to_numeric (k ++ spaces n ++ DOWNGRADE) t
     = Some (inject_Z v + -1 / 3)%Q.
Proof.
  intros Hk Hv. rewrite !pad_spaces. unfold convert_rating_to_numeric.
  rewrite !(code_app_not_empty k _ Hk), !extract_tagged by auto.
  destruct (modifier_tagged k n (proj1 Hk)) as [-> ->]. rewrite Hv.
  replace (String.eqb _ "N/A") with false; [done|].
  symmetry. destruct ((4 <=? n)%nat && _); [done|].
  destruct (String.eqb_spec k "N/A") as [->|]; [|done].
  destruct Hk as [_ Hm]. discriminate Hm.
Qed.

Lemma agency_keys_are_codes (t : gmap string Z) :
  In t agency_tables ->
  map_Forall (fun k _ =>
    string_forall code_char k = true /\ RatingRe.match_here k = Some k
    /\ PyStr.in_list k ["SD"; "RD"] = false) t.
Proof.
  intros [<-|[<-|[<-|[]]]]; compute_done.
Qed.

(** X1. Behind a key of an agency table the tag may stand after any number
    of spaces: the score is that of the key plus or minus 1/3. *)
Lemma outlook_tag_any_spaces (t : gmap string Z) (k : string) (v : Z)
    (n : nat) :
  In t agency_tables -> t !! k = Some v ->
  convert_rating_to_numeric (k ++ spaces n ++ "[upgrade]") t
  = Some (inject_Z v + 1 / 3)%Q
  /\ convert_rating_to_numeric (k ++ spaces n ++ "[downgrade]") t
     = Some (inject_Z v + -1 / 3)%Q.
Proof.
  intros Ht Hv.
  destruct (agency_keys_are_codes t Ht k v Hv) as (Hc & Hm & Hsd).
  apply convert_tagged; [by split|].
  by rewrite Hsd, andb_false_r.
Qed.

(** X2. Behind "SD" and "RD" the tag needs four spaces or more in front for
    the score of "D" plus or minus 1/3. *)
Lemma outlook_tag_default_spaces (t : gmap string Z) (k : string) (v : Z)
    (n : nat) :
  k = "SD" \/ k = "RD" -> t !! "D" = Some v -> (4 <= n)%nat ->
  convert_rating_to_numeric (k ++ spaces n ++ "[upgrade]") t
  = Some (inject_Z v + 1 / 3)%Q
  /\ convert_rating_to_numeric (k ++ spaces n ++ "[downgrade]") t
     = Some (inject_Z v + -1 / 3)%Q.
Proof.
  intros Hk Hv Hn. apply convert_tagged.
  - destruct Hk as [-> | ->]; by split.
  - replace (4 <=? n)%nat with true by (symmetry; by apply Nat.leb_le).
    by destruct Hk as [-> | ->].
Qed.

(** X3. "SD" and "RD" with an outlook tag behind fewer than four
    spaces have no score in any agency table. *)
Lemma outlook_tag_default_few_spaces (t : gmap string Z) (k : string)
    (n : nat) :
  In t agency_tables -> k = "SD" \/ k = "RD" -> (n < 4)%nat ->
  convert_rating_to_numeric (k ++ spaces n ++ "[upgrade]") t = None
  /\ convert_rating_to_numeric (k ++ spaces n ++ "[downgrade]") t = None.
Proof.
  intros Ht Hk Hn.
  destruct n as [|[|[|[|n]]]]; [| | | |lia];
    destruct Ht as [<-|[<-|[<-|[]]]]; destruct Hk as [-> | ->];
    split; vm_compute; reflexivity.
Qed.

Lemma outlook_tag_default_few_spaces_witness :
  convert_rating_to_numeric ("SD" ++ spaces 3 ++ "[upgrade]") SP_RATINGS
  = None
  /\ convert_rating_to_numeric ("SD" ++ spaces 3 ++ "[downgrade]") SP_RATINGS
     = None.
Proof.
  apply (outlook_tag_default_few_spaces SP_RATINGS "SD" 3).
  - simpl. tauto.
  - by left.
  - lia.
Defined.

End OutlookTagScores.

(** * Further properties of the code *)

(** ** Outlook tags behind table keys *)

Lemma outlook_tag_any_spaces_witness :
  convert_rating_to_numeric ("Baa2" ++ spaces 1 ++ "[upgrade]") MOODYS_RATINGS
  = Some (inject_Z 14 + 1 / 3)%Q
  /\ convert_rating_to_numeric ("Baa2" ++ spaces 1 ++ "[downgrade]")
       MOODYS_RATINGS
     = Some (inject_Z 14 + -1 / 3)%Q.
Proof.
  apply (outlook_tag_any_spaces MOODYS_RATINGS "Baa2" 14 1).
  - simpl. tauto.
  - reflexivity.
Defined.

Lemma outlook_tag_default_spaces_witness :
  convert_rating_to_numeric ("RD" ++ spaces 6 ++ "[upgrade]") FITCH_RATINGS
  = Some (inject_Z 1 + 1 / 3)%Q
  /\ convert_rating_to_numeric ("RD" ++ spaces 6 ++ "[downgrade]")
       FITCH_RATINGS
     = Some (inject_Z 1 + -1 / 3)%Q.
Proof.
  apply (outlook_tag_default_spaces FITCH_RATINGS "RD" 1 6).
  - by right.
  - reflexivity.
  - lia.
Defined.

(** ** The range of the scores *)

Lemma agency_scores_within (t : gmap string Z) :
  In t agency_tables -> scores_within 1 22 t.
Proof. intros [<-|[<-|[<-|[]]]]; compute_done. Qed.

Lemma upgrade_modifier_cases (rating_text : string) :
  upgrade_modifier rating_text = (1 / 3)%Q
  \/ upgrade_modifier rating_text = (-1 / 3)%Q
  \/ upgrade_modifier rating_text = 0%Q.
Proof.
  unfold upgrade_modifier.
  destruct (_ || _); [by left|]. destruct (_ || _); auto.
Qed.

(** X4. With an agency table a score is a level of 1..22 plus -1/3, 0 or
    +1/3, so it lies between 2/3 and 22 + 1/3. *)
Theorem convert_rating_range (rating_text : string) (t : gmap string Z)
    (q : Q) :
  In t agency_tables ->
  convert_rating_to_numeric rating_text t = Some q ->
  exists (n : Z) (m : Q),
    q = (inject_Z n + m)%Q /\ (1 <= n <= 22)%Z
    /\ (m = (1 / 3)%Q \/ m = (-1 / 3)%Q \/ m = 0%Q)
    /\ (2 # 3 <= q <= 67 # 3)%Q.
Proof.
  intros Ht Hq.
  destruct (convert_rating_cases rating_text t) as [Hn|(v & Hv & Hc)];
    [congruence|].
  rewrite Hc in Hq. injection Hq as <-.
  pose proof (agency_scores_within t Ht _ _ Hv) as [Hlo Hhi].
  exists v, (upgrade_modifier rating_text).
  split; [done|]. split; [done|].
  split; [apply upgrade_modifier_cases|].
  rewrite Zle_Qle in Hlo, Hhi.
  change (inject_Z 1) with 1%Q in Hlo. change (inject_Z 22) with 22%Q in Hhi.
  revert Hlo Hhi. generalize (inject_Z v). intros w Hlo Hhi.
  destruct (upgrade_modifier_cases rating_text) as [-> |[-> | ->]];
    change (1 / 3)%Q with (1 # 3)%Q; change (-1 / 3)%Q with (-1 # 3)%Q;
    split; lra.
Qed.

Lemma convert_rating_range_witness :
  exists (n : Z) (m : Q),
    (inject_Z 19 + -1 / 3)%Q = (inject_Z n + m)%Q /\ (1 <= n <= 22)%Z
    /\ (m = (1 / 3)%Q \/ m = (-1 / 3)%Q \/ m = 0%Q)
    /\ (2 # 3 <= inject_Z 19 + -1 / 3 <= 67 # 3)%Q.
Proof.
  apply (convert_rating_range "Aa3    [downgrade]" MOODYS_RATINGS).
  - simpl. tauto.
  - reflexivity.
Defined.

(** ** The shape of a base rating *)

Lemma string_length_app (a b : string) :
  String.length (a ++ b) = (String.length a + String.length b)%nat.
Proof.
  induction a as [|c a IH]; [done|].
  change (String c a ++ b) with (String c (a ++ b)). simpl. by rewrite IH.
Qed.

Lemma match_here_length s m :
  RatingRe.match_here s = Some m -> (1 <= String.length m <= 5)%nat.
Proof.
  intros (l & sg & d & -> & _ & Hl & Hsg & Hd)%match_here_shape.
  rewrite !string_length_app.
  destruct Hsg as [->|(c & -> & _)], Hd as [->|(c' & -> & _)]; simpl; lia.
Qed.

Lemma base_of_clean_shape (clean : string) :
  PyStr.strip clean = clean ->
  let b := if PyStr.in_list clean ["SD"; "RD"] then "D"
           else match RatingRe.search clean with
                | Some m => m
                | None => clean
                end in
  PyStr.strip b = b
  /\ (b = "N/A" \/ b = "D"
      \/ (is_code b /\ (1 <= String.length b <= 5)%nat)
      \/ string_forall (fun c => negb (RatingRe.is_alpha c)) b = true).
Proof.
  intros Hclean.
  destruct (PyStr.in_list clean _); [by split; [|right; left]|].
  destruct (RatingRe.search clean) as [m|] eqn:Es; cbn zeta.
  - destruct (search_some _ _ Es) as (s' & Hm).
    destruct (match_here_fixed _ _ Hm) as [Hc Hm'].
    split.
    + apply strip_no_space. revert Hc. apply string_forall_impl.
      by intros c ->%code_char_not_space.
    + right; right; left. split; [by split|].
      by apply (match_here_length s').
  - split; [done|].
    right; right; right. by apply search_none.
Qed.

(** X5. Whatever the text, [extract_base_rating] gives a text without space
    at either end which is "N/A", "D", a rating code of one to five
    characters, or a text without any letter. *)
Theorem extract_base_rating_shape (rating_text : string) :
  PyStr.strip (extract_base_rating rating_text)
  = extract_base_rating rating_text
  /\ (extract_base_rating rating_text = "N/A"
      \/ extract_base_rating rating_text = "D"
      \/ (is_code (extract_base_rating rating_text)
          /\ (1 <= String.length (extract_base_rating rating_text) <= 5)%nat)
      \/ string_forall (fun c => negb (RatingRe.is_alpha c))
           (extract_base_rating rating_text) = true).
Proof.
  unfold extract_base_rating.
  destruct (_ || _); [by split; [|left]|].
  apply base_of_clean_shape, strip_idem.
Qed.

(** ** Grades *)

(** X14. An average within the range of a grade is put in that grade: the
    ranges do not overlap. *)
Theorem categorize_in_range (grade : string) (lo hi a : Q) :
  In (grade, (lo, hi)) RATING_GRADES -> (lo <= a <= hi)%Q ->
  categorize_by_average_rating (Some a) = grade.
Proof.
  intros Hin [Hlo Hhi]. unfold categorize_by_average_rating.
  unfold RATING_GRADES in *. cbn [In] in Hin.
  repeat (destruct Hin as [[= <- <- <-]|Hin];
          [cbn [List.find]; decide_Qle_bool; reflexivity|]).
  destruct Hin.
Qed.

Lemma categorize_in_range_witness :
  categorize_by_average_rating (Some 20.33%Q) = "High Medium Grade".
Proof.
  apply (categorize_in_range "High Medium Grade" 19 21 20.33).
  - simpl. tauto.
  - split; vm_compute; discriminate.
Defined.

(** X15. An average is left without grade exactly when it is below 1, above
    22, or strictly between the ranges of two grades, as 21.67 is: the
    ranges hold whole numbers only. *)
Theorem categorize_between_grades (a : Q) :
  categorize_by_average_rating (Some a) = "No Rating"
  <-> (a < 1 \/ 22 < a \/ 1 < a < 2 \/ 3 < a < 4 \/ 6 < a < 7
       \/ 9 < a < 10 \/ 12 < a < 13 \/ 15 < a < 16 \/ 18 < a < 19
       \/ 21 < a < 22)%Q.
Proof.
  unfold categorize_by_average_rating, RATING_GRADES. cbn [List.find].
  split.
  - decide_Qle_bool; intros H; try discriminate H; lra.
  - intros H. decide_Qle_bool; reflexivity.
Qed.

Lemma categorize_in_grade_order (avg_rating : option Q) :
  In (categorize_by_average_rating avg_rating) grade_order.
Proof.
  unfold categorize_by_average_rating.
  destruct avg_rating as [a|]; [|simpl; tauto].
  destruct (List.find _ RATING_GRADES) as [[grade r]|] eqn:E; [|simpl; tauto].
  apply find_some in E as [Hin _]. unfold RATING_GRADES in Hin.
  cbn [In] in Hin.
  repeat (destruct Hin as [[= <- <-]|Hin]; [simpl; tauto|]).
  destruct Hin.
Qed.

Section Grouping.

Context {A : Type} (f : A -> string).

(** Grouping by a key that always lies in the duplicate-free list [ks]
    loses nothing and repeats nothing. *)
Lemma group_by_perm (ks : list string) (rows : list A) :
  NoDup ks -> (forall x, In (f x) ks) ->
  Permutation
    (flat_map (fun k => List.filter (fun x => String.eqb (f x) k) rows) ks)
    rows.
Proof.
  intros Hnd Hin. induction rows as [|r rows IH].
  - clear. induction ks as [|k ks IHk]; [done|]. simpl. exact IHk.
  - assert (Hgen : forall ks', NoDup ks' ->
      Permutation
        (flat_map (fun k => List.filter (fun x => String.eqb (f x) k)
                              (r :: rows)) ks')
        ((if bool_decide (f r ∈ ks') then [r] else [])
         ++ flat_map (fun k => List.filter (fun x => String.eqb (f x) k) rows)
              ks')%list).
    { clear. induction ks' as [|k ks' IHk]; intros Hnd'; [done|].
      apply NoDup_cons in Hnd' as [Hk Hnd'].
      cbn [flat_map List.filter].
      rewrite (IHk Hnd').
      destruct (String.eqb_spec (f r) k) as [->|Hne].
      - rewrite (bool_decide_eq_true_2 (k ∈ k :: ks')) by (by left).
        rewrite (bool_decide_eq_false_2 (k ∈ ks')) by done. done.
      - destruct (bool_decide (f r ∈ ks')) eqn:E.
        + rewrite (bool_decide_eq_true_2 (f r ∈ k :: ks'))
            by (right; by apply bool_decide_eq_true_1 in E).
          cbn [app]. by rewrite Permutation_middle.
        + rewrite (bool_decide_eq_false_2 (f r ∈ k :: ks')); [done|].
          intros [?|?]%elem_of_cons; [done|].
          by apply bool_decide_eq_false_1 in E. }
    rewrite (Hgen ks Hnd).
    rewrite bool_decide_eq_true_2 by (by apply list_elem_of_In).
    cbn [app]. by constructor.
Qed.

End Grouping.

Section GroupRows.

Context {A : Type} (G : string -> list A).

Lemma groups_concat (ks : list string) :
  concat (map snd (nonempty_groups G ks)) = flat_map G ks.
Proof.
  induction ks as [|k ks IH]; [done|]. unfold nonempty_groups in *.
  cbn [flat_map]. rewrite map_app, concat_app, IH.
  destruct (G k); [done|]. simpl. by rewrite app_nil_r.
Qed.

Lemma groups_sublist (ks : list string) :
  sublist (map fst (nonempty_groups G ks)) ks.
Proof.
  induction ks as [|k ks IH]; [constructor|]. unfold nonempty_groups in *.
  cbn [flat_map]. rewrite map_app.
  destruct (G k); simpl; [by constructor|by constructor].
Qed.

Lemma groups_members (ks : list string) :
  Forall (fun g => snd g <> [] /\ snd g = G (fst g)) (nonempty_groups G ks).
Proof.
  induction ks as [|k ks IH]; [constructor|]. unfold nonempty_groups in *.
  cbn [flat_map]. apply Forall_app. split; [|exact IH].
  destruct (G k) eqn:E; [constructor|].
  constructor; [|constructor]. simpl. by rewrite E.
Qed.

End GroupRows.

(** X16. The grade summary loses no country and repeats none: the groups of
    [generate_ratings_summary_table] together are the rows of the file,
    each row in the group of its grade; a grade without rows gives no
    group, and the groups come in the order of [grade_order]. *)
Theorem grade_groups_partition (rows : list (string * option Q)) :
  Permutation (concat (map snd (grade_groups rows))) rows
  /\ Forall (fun g =>
       snd g <> []
       /\ Forall (fun row => categorize_by_average_rating (snd row) = fst g)
            (snd g))
       (grade_groups rows)
  /\ sublist (map fst (grade_groups rows)) grade_order.
Proof.
  set (G := fun grade : string =>
              List.filter
                (fun row : string * option Q =>
                   String.eqb (categorize_by_average_rating (snd row)) grade)
                rows).
  change (grade_groups rows) with (nonempty_groups G grade_order).
  split; [|split].
  - rewrite groups_concat.
    apply (group_by_perm (fun row => categorize_by_average_rating (snd row))).
    + unfold grade_order. compute_done.
    + intros row. apply categorize_in_grade_order.
  - eapply Forall_impl; [apply groups_members|].
    intros [grade g] [Hne Hg]. split; [done|]. simpl in *. subst g.
    apply List.Forall_forall. intros row [_ Hrow]%filter_In.
    by apply String.eqb_eq in Hrow.
  - apply groups_sublist.
Qed.

(** X17. The codes that [RATING_GRADES] lists for a grade are put in that
    grade by their table score, with the S&P codes and the S&P table and
    with the Moody's codes and Moody's table, and every key of the two
    tables is listed for some grade. *)
Theorem grade_codes_consistent :
  Forall (fun g =>
            Forall (fun code =>
                      categorize_by_average_rating
                        (convert_rating_to_numeric code SP_RATINGS) = fst g)
              (snd g)) RATING_GRADES_SP
  /\ Forall (fun g =>
               Forall (fun code =>
                         categorize_by_average_rating
                           (convert_rating_to_numeric code MOODYS_RATINGS)
                         = fst g)
                 (snd g)) RATING_GRADES_MOODYS
  /\ map_Forall (fun k _ => Exists (fun g => k ∈ snd g) RATING_GRADES_SP)
       SP_RATINGS
  /\ map_Forall (fun k _ => Exists (fun g => k ∈ snd g) RATING_GRADES_MOODYS)
       MOODYS_RATINGS.
Proof.
  split; [|split; [|split]].
  - unfold RATING_GRADES_SP.
    repeat (constructor;
            [repeat (constructor; [by vm_compute|]); constructor|]).
    constructor.
  - unfold RATING_GRADES_MOODYS.
    repeat (constructor;
            [repeat (constructor; [by vm_compute|]); constructor|]).
    constructor.
  - compute_done.
  - compute_done.
Qed.

(** ** Rating labels *)

(** X18. [RATING_LABEL] is the inverse of the S&P table, which is also the
    Fitch table: a code has the score [v] exactly when [v] is labelled
    with the code.  Every tick from 1 to 22 has a label, so that no tick
    label is the empty default. *)
Theorem rating_label_inverse :
  (forall (k : string) (v : Z),
     SP_RATINGS !! k = Some v <-> RATING_LABEL !! v = Some k)
  /\ SP_RATINGS = FITCH_RATINGS
  /\ Forall (fun t => is_Some (RATING_LABEL !! t)) (seqZ 1 22)
  /\ Forall (fun label => label <> EmptyString) (tick_labels 1 22)
  /\ size RATING_LABEL = 22%nat.
Proof.
  split; [|split; [reflexivity|split; [|split; [compute_done|reflexivity]]]].
  - intros k v. split; intros H.
    + assert (Hall : map_Forall (fun k v => RATING_LABEL !! v = Some k)
                       SP_RATINGS) by compute_done.
      by apply Hall.
    + assert (Hall : map_Forall (fun v k => SP_RATINGS !! k = Some v)
                       RATING_LABEL) by compute_done.
      by apply Hall.
  - compute_done.
Qed.

(** ** The accuracy of the average *)

Lemma round_half_even_error (x : Q) :
  (Qabs (inject_Z (round_half_even x) - x) <= 1 # 2)%Q.
Proof.
  unfold round_half_even.
  pose proof (Qfloor_le x) as Hlo. pose proof (Qlt_floor x) as Hhi.
  rewrite inject_Z_plus in Hhi. change (inject_Z 1) with 1%Q in Hhi.
  destruct (Qcompare_spec (x - inject_Z (Qfloor x)) (1 # 2)) as [He|Hl|Hg].
  - destruct (Z.even (Qfloor x));
      rewrite ?inject_Z_plus; change (inject_Z 1) with 1%Q;
      apply Qabs_case; intros; lra.
  - apply Qabs_case; intros; lra.
  - rewrite inject_Z_plus. change (inject_Z 1) with 1%Q.
    apply Qabs_case; intros; lra.
Qed.

Lemma round2_error (q : Q) : (Qabs (round2 q - q) <= 1 # 200)%Q.
Proof.
  unfold round2. pose proof (round_half_even_error (q * 100)) as H.
  revert H. generalize (inject_Z (round_half_even (q * 100))). intros w H.
  unfold Qdiv. change (/ 100)%Q with (1 # 100)%Q.
  revert H. apply Qabs_case; intros H1 H2; apply Qabs_case; intros; lra.
Qed.

Lemma mean_skipna_within (row : list (option Q)) (lo hi m : Q) :
  (forall q, In (Some q) row -> (lo <= q <= hi)%Q) ->
  mean_skipna row = Some m -> (lo <= m <= hi)%Q.
Proof.
  intros Hrow. unfold mean_skipna.
  assert (Hp : forall q, In q (omap id row) -> (lo <= q <= hi)%Q).
  { intros q Hq%list_elem_of_In%list_elem_of_omap.
    destruct Hq as (o & Ho & Hid). simpl in Hid. subst o.
    apply Hrow. by apply list_elem_of_In. }
  clear Hrow. generalize dependent (omap id row). intros present Hp.
  destruct present as [|p present]; [discriminate|]. intros Hm.
  assert (Hm' : m = (fold_right Qplus 0 (p :: present)
                     / inject_Z (Z.of_nat (length (p :: present))))%Q)
    by congruence.
  rewrite Hm'. clear Hm Hm'.
  set (n := length (p :: present)).
  assert (Hsum : (inject_Z (Z.of_nat n) * lo
                  <= fold_right Qplus 0 (p :: present)
                  <= inject_Z (Z.of_nat n) * hi)%Q).
  { subst n. clear -Hp. induction (p :: present) as [|x l IH].
    - change (inject_Z (Z.of_nat (length (@nil Q)))) with 0%Q.
      cbn [fold_right]. split; lra.
    - cbn [length fold_right]. rewrite Nat2Z.inj_succ, <- Z.add_1_r.
      rewrite inject_Z_plus. change (inject_Z 1) with 1%Q.
      destruct (Hp x (or_introl eq_refl)) as [? ?].
      destruct IH as [? ?]; [intros q Hq; apply Hp; by right|].
      split; lra. }
  assert (Hn : (0 < inject_Z (Z.of_nat n))%Q).
  { change 0%Q with (inject_Z 0). rewrite <- Zlt_Qlt. subst n. simpl. lia. }
  revert Hsum Hn. generalize (inject_Z (Z.of_nat n)).
  generalize (fold_right Qplus 0%Q (p :: present)). intros s c [H1 H2] Hc.
  split.
  - apply Qle_shift_div_l; [done|]. lra.
  - apply Qle_shift_div_r; [done|]. lra.
Qed.

(** X10. The average of a row is the mean of the ratings that are present,
    rounded to two decimals: it is at most 0.005 outside the interval
    the present ratings lie in. *)
Theorem average_within (sp moodys fitch : option Q) (lo hi a : Q) :
  (forall q, In (Some q) [sp; moodys; fitch] -> (lo <= q <= hi)%Q) ->
  Average_Rating sp moodys fitch = Some a ->
  (lo - (1 # 200) <= a <= hi + (1 # 200))%Q.
Proof.
  intros Hrow. unfold Average_Rating.
  destruct (mean_skipna [sp; moodys; fitch]) as [m|] eqn:Em; [|discriminate].
  intros [= <-]. pose proof (mean_skipna_within _ lo hi m Hrow Em) as [? ?].
  pose proof (round2_error m) as He. revert He.
  apply Qabs_case; intros; split; lra.
Qed.

Lemma average_within_witness :
  (21 - (1 # 200) <= 21.67 <= 22 + (1 # 200))%Q.
Proof.
  apply (average_within (Some 22%Q) (Some 21%Q) (Some 22%Q) 21 22 21.67).
  - simpl. intros q [[= <-]|[[= <-]|[[= <-]|[]]]]; split; lra.
  - reflexivity.
Defined.

(** ** The labelled points of a plot *)

Lemma fmax_cases (a b : Q) :
  (fmax a b = a \/ fmax a b = b) /\ (a <= fmax a b)%Q /\ (b <= fmax a b)%Q.
Proof.
  unfold fmax. destruct (Qltb a b) eqn:E.
  - apply Qltb_lt in E. split; [by right|]. split; lra.
  - apply Qltb_ge in E. split; [by left|]. split; lra.
Qed.

Lemma fold_fmax_spec (vs : list Q) (v : Q) :
  In (fold_left fmax vs v) (v :: vs)
  /\ forall q, In q (v :: vs) -> (q <= fold_left fmax vs v)%Q.
Proof.
  revert v. induction vs as [|x vs IH]; intros v; cbn [fold_left].
  - split; [by left|]. intros q [<-|[]]. lra.
  - destruct (IH (fmax v x)) as [Hin Hmax].
    destruct (fmax_cases v x) as (Hc & Hv & Hx). split.
    + destruct Hin as [Hm|Hm]; [|by right; right].
      rewrite <- Hm. destruct Hc as [-> | ->]; [by left|by right; left].
    + intros q [<-|[<-|Hq]].
      * pose proof (Hmax _ (or_introl eq_refl)). lra.
      * pose proof (Hmax _ (or_introl eq_refl)). lra.
      * apply Hmax. by right.
Qed.

Lemma omap_id_In (values : list (option Q)) (q : Q) :
  In q (omap id values) <-> In (Some q) values.
Proof.
  rewrite <- !list_elem_of_In, list_elem_of_omap. split.
  - intros (o & Ho & Hid). simpl in Hid. by subst o.
  - intros H. by exists (Some q).
Qed.

(** [nanmax] gives one of the values present, and none is greater. *)
Lemma nanmax_spec (values : list (option Q)) (m : Q) :
  nanmax values = Some m ->
  In (Some m) values /\ forall q, In (Some q) values -> (q <= m)%Q.
Proof.
  unfold nanmax. destruct (omap id values) as [|v vs] eqn:E; [discriminate|].
  intros [= <-]. destruct (fold_fmax_spec vs v) as [Hin Hmax]. split.
  - apply omap_id_In. by rewrite E.
  - intros q Hq. apply Hmax. rewrite <- E. by apply omap_id_In.
Qed.

Lemma nanmax_none (values : list (option Q)) :
  nanmax values = None <-> Forall (fun v => v = None) values.
Proof.
  unfold nanmax. split.
  - destruct (omap id values) as [|v vs] eqn:E; [|discriminate]. intros _.
    apply List.Forall_forall. intros [q|] Hq; [|done].
    apply omap_id_In in Hq. rewrite E in Hq. destruct Hq.
  - intros H. replace (omap id values) with (@nil Q); [done|].
    induction H as [|v values -> _ IH]; [done|]. exact IH.
Qed.

Lemma country_data_row (rows : list RatingRow) (p : LabelPoint) :
  In p (country_data rows) ->
  exists row,
    In row rows
    /\ row_spread row = Some (pt_x p)
    /\ nanmax (row_ratings row) = Some (pt_y p)
    /\ pt_ctry p = row_country row
    /\ pt_code p = country_code (row_country row).
Proof.
  unfold country_data. rewrite <- list_elem_of_In, list_elem_of_omap.
  intros (row & Hrow%list_elem_of_In & Hp). exists row.
  destruct (row_spread row) as [x|] eqn:Ex; [|discriminate].
  destruct (nanmax (row_ratings row)) as [y|] eqn:Ey; [|discriminate].
  by injection Hp as <-.
Qed.

(** X20. A row gives a point exactly when it has a spread and some rating;
    the point stands at the spread and at the best rating of the row,
    which no rating of the row exceeds, and carries the code of the
    country. *)
Theorem country_data_points (rows : list RatingRow) (p : LabelPoint) :
  In p (country_data rows)
  <-> exists row,
        In row rows
        /\ row_spread row = Some (pt_x p)
        /\ In (Some (pt_y p)) (row_ratings row)
        /\ (forall q, In (Some q) (row_ratings row) -> (q <= pt_y p)%Q)
        /\ nanmax (row_ratings row) = Some (pt_y p)
        /\ pt_ctry p = row_country row
        /\ pt_code p = country_code (row_country row).
Proof.
  unfold country_data. rewrite <- list_elem_of_In, list_elem_of_omap. split.
  - intros (row & Hrow%list_elem_of_In & Hp). exists row.
    destruct (row_spread row) as [x|] eqn:Ex; [|discriminate].
    destruct (nanmax (row_ratings row)) as [y|] eqn:Ey; [|discriminate].
    injection Hp as <-. cbn [pt_x pt_y pt_ctry pt_code].
    destruct (nanmax_spec _ _ Ey) as [Hin Hmax]. done.
  - intros (row & Hrow & Hx & _ & _ & Hy & Hc & Hk). exists row.
    split; [by apply list_elem_of_In|]. rewrite Hx, Hy.
    destruct p. cbn [pt_x pt_y pt_ctry pt_code] in *. by subst.
Qed.

(** ** Labels within the bounds of the investment-grade plot *)

Section PlaceInvariant.

Variable adjust : Q -> Q -> list (Q * Q) -> Q.
Variable label_dx : Q.
Variable P : Q -> Prop.
Hypothesis adjust_keeps : forall lx ly used, P ly -> P (adjust lx ly used).

Lemma place_acc_forall (data : list LabelPoint) (acc : list (Q * Q)) :
  Forall (fun p => P (pt_y p)) data ->
  Forall (fun pos => P (snd pos)) acc ->
  Forall (fun pos => P (snd pos))
    (fold_left (place_step adjust label_dx) data acc).
Proof.
  revert acc. induction data as [|p data IH]; intros acc Hd Ha; [done|].
  apply Forall_cons in Hd as [Hp Hd]. cbn [fold_left]. apply IH; [done|].
  unfold place_step. apply Forall_app. split; [done|].
  constructor; [|constructor]. by apply adjust_keeps.
Qed.

Lemma place_forall (data : list LabelPoint) :
  Forall (fun p => P (pt_y p)) data ->
  Forall (fun pos => P (snd pos)) (place adjust label_dx data).
Proof. intros H. by apply place_acc_forall. Qed.

End PlaceInvariant.

Lemma ig_adjust_in_bounds (lx ly : Q) (used : list (Q * Q)) :
  InvestmentGrade.in_bounds ly = true ->
  InvestmentGrade.in_bounds (InvestmentGrade.adjust lx ly used) = true.
Proof.
  intros Hly. unfold InvestmentGrade.adjust. rewrite adjust_from_find.
  destruct (List.find _ used) as [u|]; [|done].
  destruct (best_position_spec lx ly (snd u) used) as [[_ ->]|[Hb _]];
    [done|].
  by apply filter_In in Hb as [_ Hb].
Qed.

(** X23. The investment-grade resolver keeps the labels within the bounds
    13.8..22.5 of its plot: when every point lies within them, so does
    every label. *)
Theorem investment_grade_resolve_in_bounds (label_dx : Q)
    (country_data : list LabelPoint) :
  Forall (fun p => InvestmentGrade.in_bounds (pt_y p) = true) country_data ->
  Forall (fun pos => InvestmentGrade.in_bounds (snd pos) = true)
    (InvestmentGrade.resolve label_dx country_data).
Proof.
  intros H. unfold InvestmentGrade.resolve.
  apply (place_forall _ _ (fun y => InvestmentGrade.in_bounds y = true)).
  - intros lx ly used. apply ig_adjust_in_bounds.
  - eapply Permutation_Forall; [|exact H].
    symmetry. apply sort_by_perm.
Qed.

Lemma investment_grade_resolve_in_bounds_witness :
  Forall (fun pos => InvestmentGrade.in_bounds (snd pos) = true)
    (InvestmentGrade.resolve 8
       [mkPoint 30 22.33 "Norway" "no"; mkPoint 31 22 "Sweden" "se";
        mkPoint 32 22.33 "Denmark" "dk"]).
Proof.
  apply (investment_grade_resolve_in_bounds 8).
  repeat constructor.
Defined.

(** X24. For the rows of the file, after the filter on a best rating
    of 14 or more, and with no rating above 22.5, every label of the
    investment-grade plot lies within 13.8..22.5. *)
Theorem investment_grade_labels_in_bounds (label_dx : Q)
    (rows : list RatingRow) :
  (forall row q, In row rows -> In (Some q) (row_ratings row) ->
                 (q <= 22.5)%Q) ->
  Forall (fun pos => InvestmentGrade.in_bounds (snd pos) = true)
    (investment_grade_labels label_dx rows).
Proof.
  intros Hmax. unfold investment_grade_labels, InvestmentGrade.resolve.
  apply (place_forall _ _ (fun y => InvestmentGrade.in_bounds y = true));
    [intros lx ly used; apply ig_adjust_in_bounds|].
  eapply Permutation_Forall; [symmetry; apply sort_by_perm|].
  apply List.Forall_forall. intros p Hp.
  apply country_data_row in Hp as (row & Hrow & _ & Hbest & _ & _).
  destruct (nanmax_spec _ _ Hbest) as [Hin _].
  apply filter_In in Hrow as [Hrow Hig].
  unfold investment_grade in Hig. rewrite Hbest in Hig.
  apply Qle_bool_iff in Hig. specialize (Hmax row _ Hrow Hin).
  unfold InvestmentGrade.in_bounds. apply andb_true_iff.
  split; apply Qle_bool_iff; lra.
Qed.

Lemma investment_grade_labels_in_bounds_witness :
  Forall (fun pos => InvestmentGrade.in_bounds (snd pos) = true)
    (investment_grade_labels 8
       [mkRow "Norway" (Some 30%Q) (Some 22%Q) (Some 22%Q) None;
        mkRow "Egypt" (Some 900%Q) (Some 7%Q) None (Some 8%Q);
        mkRow "Sweden" (Some 31%Q) (Some 22%Q) None (Some (67 # 3))]).
Proof.
  apply (investment_grade_labels_in_bounds 8).
  intros row q [<-|[<-|[<-|[]]]] Hq; simpl in Hq;
    destruct Hq as [[= <-]|[[= <-]|[[= <-]|[]]]]; vm_compute; discriminate.
Defined.

(** ** Coincident points in the full plot *)

Section Ladder.

Import FullPlot.

Lemma ladder_snoc (y : Q) (k : nat) :
  ladder y (S k) = (ladder y k ++ [top y k])%list.
Proof.
  revert y. induction k as [|k IH]; intros y; [done|].
  change (ladder y (S (S k))) with (y :: ladder (y + min_distance) (S k)).
  rewrite IH. done.
Qed.

Lemma ladder_lookup (y : Q) (n i : nat) (v : Q) :
  ladder y n !! i = Some v -> v = top y i.
Proof.
  revert y i. induction n as [|n IH]; intros y i; [done|].
  destruct i as [|i]; simpl.
  - by intros [= <-].
  - apply IH.
Qed.

Lemma top_value (y : Q) (k : nat) :
  (top y k == y + inject_Z (Z.of_nat k) * min_distance)%Q.
Proof.
  revert y. induction k as [|k IH]; intros y.
  - cbn [top]. change (inject_Z (Z.of_nat 0)) with 0%Q. lra.
  - cbn [top]. rewrite IH, Nat2Z.inj_succ, <- Z.add_1_r, inject_Z_plus.
    change (inject_Z 1) with 1%Q. lra.
Qed.

Lemma adjust_step_same (lx y : Q) :
  adjust_step lx y (lx, y) = (y + min_distance)%Q.
Proof.
  unfold adjust_step.
  rewrite Qltb_abs_self by (unfold window; lra).
  rewrite Qltb_abs_self by (unfold min_distance; lra).
  replace (Qle_bool y y) with true; [done|].
  symmetry. apply Qle_bool_iff. lra.
Qed.

(** Set against a ladder of labels, a label that starts at its foot
    climbs to the first free height above it. *)
Lemma adjust_ladder (lx y : Q) (k : nat) :
  adjust lx y (map (pair lx) (ladder y k)) = top y k.
Proof.
  unfold adjust. revert y. induction k as [|k IH]; intros y; [done|].
  cbn [ladder map fold_left top]. rewrite adjust_step_same. apply IH.
Qed.

Lemma place_ladder (label_dx x y : Q) (data : list LabelPoint) (k : nat) :
  Forall (fun p => pt_x p = x /\ pt_y p = y) data ->
  fold_left (place_step adjust label_dx) data
    (map (pair (x + label_dx)%Q) (ladder y k))
  = map (pair (x + label_dx)%Q) (ladder y (k + length data)).
Proof.
  revert k. induction data as [|p data IH]; intros k Hd.
  - by rewrite Nat.add_0_r.
  - apply Forall_cons in Hd as [[Hx Hy] Hd]. cbn [fold_left length].
    unfold place_step at 2. rewrite Hx, Hy, adjust_ladder.
    replace (map (pair (x + label_dx)%Q) (ladder y k)
             ++ [((x + label_dx)%Q, top y k)])%list
      with (map (pair (x + label_dx)%Q) (ladder y (S k)))
      by (by rewrite ladder_snoc, map_app).
    rewrite (IH (S k) Hd). f_equal. f_equal. lia.
Qed.

End Ladder.

(** X25. Any number of points at the same place are stacked in the full
    plot: the label of the first stays, and each further label goes
    [min_distance] (0.8) above the one before, without bound. *)
Theorem coincident_points_ladder (label_dx x y : Q)
    (country_data : list LabelPoint) :
  Forall (fun p => pt_x p = x /\ pt_y p = y) country_data ->
  FullPlot.resolve label_dx country_data
  = map (pair (x + label_dx)%Q) (ladder y (length country_data))
  /\ forall (i : nat) (ly : Q),
       ladder y (length country_data) !! i = Some ly ->
       (ly == y + inject_Z (Z.of_nat i) * FullPlot.min_distance)%Q.
Proof.
  intros H. split.
  - unfold FullPlot.resolve, place.
    rewrite <- (sort_by_length FullPlot.key_lt country_data).
    apply (place_ladder label_dx x y _ 0).
    eapply Permutation_Forall; [|exact H].
    symmetry. apply sort_by_perm.
  - intros i ly ->%ladder_lookup. apply top_value.
Qed.

Lemma coincident_points_ladder_witness :
  FullPlot.resolve 8
    [mkPoint 5 22 "Norway" "no"; mkPoint 5 22 "Sweden" "se";
     mkPoint 5 22 "Denmark" "dk"]
  = map (pair (5 + 8)%Q) (ladder 22 3)
  /\ forall (i : nat) (ly : Q),
       ladder 22 3 !! i = Some ly ->
       (ly == 22 + inject_Z (Z.of_nat i) * FullPlot.min_distance)%Q.
Proof.
  apply (coincident_points_ladder 8 5 22
           [mkPoint 5 22 "Norway" "no"; mkPoint 5 22 "Sweden" "se";
            mkPoint 5 22 "Denmark" "dk"]).
  repeat constructor.
Defined.

(** ** The pairs of a permuted list *)

Lemma ordered_pairs_perm {A : Type} (R : A -> A -> Prop) (l l' : list A) :
  (forall a b, R a b -> R b a) ->
  Permutation l l' -> ForallOrdPairs R l -> ForallOrdPairs R l'.
Proof.
  intros Hsym Hp. induction Hp as [|x l l' Hp IH|x y l|l l' l'' _ IH1 _ IH2];
    intros H.
  - done.
  - inversion H as [|? ? Hx Hl]; subst. constructor; [|by apply IH].
    eapply Permutation_Forall; [exact Hp|exact Hx].
  - inversion H as [|? ? Hy Hl]; subst.
    inversion Hl as [|? ? Hx Hl']; subst.
    apply Forall_cons in Hy as [Hyx Hy].
    constructor; [constructor; [by apply Hsym|done]|].
    by constructor.
  - auto.
Qed.

(** ** From a scraped cell to its score *)

Lemma agency_no_NR (t : gmap string Z) :
  In t agency_tables -> t !! "NR" = None.
Proof. intros [<-|[<-|[<-|[]]]]; reflexivity. Qed.

(** A key of an agency table, with no tag, has its table score. *)
Lemma convert_key (t : gmap string Z) (k : string) (v : Z) :
  In t agency_tables -> t !! k = Some v ->
  convert_rating_to_numeric k t = Some (inject_Z v + 0)%Q.
Proof.
  intros Ht Hv.
  destruct (agency_keys_are_codes t Ht k v Hv) as (Hc & Hm & Hsd).
  destruct (extract_code k Hc Hm) as [Hin|[He Hf]].
  - exfalso. simpl in Hin. destruct Hin as [<-|[<-|[<-|[]]]]; try done.
    rewrite (agency_no_NR t Ht) in Hv. discriminate.
  - unfold convert_rating_to_numeric.
    rewrite (code_not_empty k (conj Hc Hm)), He, Hv, (tag_free_modifier k Hf).
    destruct (String.eqb_spec k "N/A") as [->|]; [discriminate Hm|done].
Qed.

Lemma convert_default_indicator (t : gmap string Z) (k : string) (v : Z) :
  In k ["SD"; "RD"] -> t !! "D" = Some v ->
  convert_rating_to_numeric k t = Some (inject_Z v + 0)%Q.
Proof.
  intros [<-|[<-|[]]] Hv; unfold convert_rating_to_numeric;
    cbn [PyStr.is_empty];
    change (extract_base_rating _) with "D"; rewrite Hv; reflexivity.
Qed.

(** X6. The rating text that the scraper stores is understood by the
    normaliser.  For a cell of a rating column whose text, stripped, is
    a key of the agency table, or "SD" or "RD" with a table that has
    "D", the score is the table score minus 1/3 with a red icon, plus
    1/3 with a teal icon and no red one, and the table score
    otherwise. *)
Theorem scraped_rating_score (t : gmap string Z) (cols : RatingColumns)
    (i : nat) (cell : Cell) (v : Z) :
  In t agency_tables ->
  is_rating_column cols i = true ->
  t !! PyStr.strip (cell_text cell) = Some v
  \/ (In (PyStr.strip (cell_text cell)) ["SD"; "RD"] /\ t !! "D" = Some v) ->
  convert_rating_to_numeric (scrape_cell cols i cell) t
  = Some (inject_Z v
          + (if red_icons cell then -1 / 3
             else if teal_icons cell then 1 / 3 else 0))%Q.
Proof.
  intros Ht Hcol Hk. unfold scrape_cell. rewrite Hcol.
  remember (PyStr.strip (cell_text cell)) as k eqn:Ek. clear Ek.
  assert (Htag : forall n,
    convert_rating_to_numeric (k ++ spaces n ++ "[upgrade]") t
    = Some (inject_Z v + 1 / 3)%Q
    /\ convert_rating_to_numeric (k ++ spaces n ++ "[downgrade]") t
       = Some (inject_Z v + -1 / 3)%Q \/ (n < 4)%nat).
  { intros n. destruct Hk as [Hk|[Hk Hd]].
    - left. destruct (agency_keys_are_codes t Ht k v Hk) as (Hc & Hm & Hsd).
      apply convert_tagged; [by split|]. by rewrite Hsd, andb_false_r.
    - destruct (le_lt_dec 4 n) as [Hn|Hn]; [left|by right].
      simpl in Hk. apply convert_tagged.
      + destruct Hk as [<-|[<-|[]]]; by split.
      + replace (4 <=? n)%nat with true by (symmetry; by apply Nat.leb_le).
        by destruct Hk as [<-|[<-|[]]]. }
  destruct (Htag 4%nat) as [[Hup Hdown]|Hn]; [|lia].
  destruct (red_icons cell); [exact Hdown|].
  destruct (teal_icons cell); [exact Hup|].
  destruct Hk as [Hk|[Hk Hd]].
  - by apply convert_key.
  - by apply convert_default_indicator.
Qed.

Lemma scraped_rating_score_witness :
  convert_rating_to_numeric
    (scrape_cell (mkColumns (Some 1%nat) (Some 2%nat) (Some 3%nat) None) 2
       (mkCell " Baa1 " true true))
    MOODYS_RATINGS
  = Some (inject_Z 15 + -1 / 3)%Q.
Proof.
  apply (scraped_rating_score MOODYS_RATINGS
           (mkColumns (Some 1%nat) (Some 2%nat) (Some 3%nat) None) 2
           (mkCell " Baa1 " true true) 15).
  - simpl. tauto.
  - reflexivity.
  - left. reflexivity.
Defined.

(** ** Rows and headers of the scraped table *)

Lemma aligned_from (cols : RatingColumns) (a : nat) (headers : list string)
    (cells : list Cell) :
  length cells = length headers ->
  Forall2
    (fun h text =>
       exists i cell,
         (a <= i)%nat /\ headers !! (i - a)%nat = Some h
         /\ cells !! (i - a)%nat = Some cell
         /\ is_dbrs cols i = false /\ text = scrape_cell cols i cell)
    (flat_map (from_header cols) (combine (seq a (length headers)) headers))
    (flat_map (from_cell cols) (combine (seq a (length cells)) cells)).
Proof.
  revert a cells. induction headers as [|h headers IH]; intros a cells Hlen.
  - destruct cells; [constructor|discriminate].
  - destruct cells as [|c cells]; [discriminate|]. injection Hlen as Hlen.
    cbn [length seq combine flat_map].
    assert (Hrest := IH (S a) cells Hlen).
    assert (Hshift :
      Forall2
        (fun h0 text =>
           exists i cell,
             (a <= i)%nat /\ (h :: headers) !! (i - a)%nat = Some h0
             /\ (c :: cells) !! (i - a)%nat = Some cell
             /\ is_dbrs cols i = false /\ text = scrape_cell cols i cell)
        (flat_map (from_header cols)
           (combine (seq (S a) (length headers)) headers))
        (flat_map (from_cell cols)
           (combine (seq (S a) (length cells)) cells))).
    { eapply Forall2_impl; [exact Hrest|].
      intros h0 text (i & cell & Hi & Hh & Hc & Hd & ->).
      exists i, cell. replace (i - a)%nat with (S (i - S a)) by lia.
      split; [lia|]. done. }
    unfold from_header at 1, from_cell at 1. cbn [fst snd].
    destruct (is_dbrs cols a) eqn:Ed; [exact Hshift|].
    cbn [app]. constructor; [|exact Hshift].
    exists a, c. rewrite Nat.sub_diag. done.
Qed.

(** X7. A row has as many entries as there are headers left, and they line
    up: the text under a header comes from the cell of the header's own
    column, which is not the DBRS column. *)
Theorem row_matches_headers (cols : RatingColumns) (headers : list string)
    (cells : list Cell) :
  length cells = length headers ->
  length (row_data cols cells) = length (new_headers cols headers)
  /\ forall (k : nat) (h text : string),
       new_headers cols headers !! k = Some h ->
       row_data cols cells !! k = Some text ->
       exists i cell,
         headers !! i = Some h /\ cells !! i = Some cell
         /\ is_dbrs cols i = false /\ text = scrape_cell cols i cell.
Proof.
  intros Hlen. pose proof (aligned_from cols 0 headers cells Hlen) as H.
  split.
  - symmetry. exact (Forall2_length _ _ _ H).
  - intros k h text Hh Ht.
    destruct (Forall2_lookup_lr _ _ _ _ _ _ H Hh Ht)
      as (i & cell & _ & Hi & Hc & Hd & ->).
    rewrite Nat.sub_0_r in Hi, Hc. by exists i, cell.
Qed.

Lemma row_matches_headers_witness :
  length (row_data (find_columns ["Country"; "S&P"; "DBRS"; "Fitch"])
            [mkCell "Peru" false false; mkCell "BBB-" true false;
             mkCell "BBB" false false; mkCell "BBB" false true])
  = length (new_headers (find_columns ["Country"; "S&P"; "DBRS"; "Fitch"])
              ["Country"; "S&P"; "DBRS"; "Fitch"])
  /\ forall (k : nat) (h text : string),
       new_headers (find_columns ["Country"; "S&P"; "DBRS"; "Fitch"])
         ["Country"; "S&P"; "DBRS"; "Fitch"] !! k = Some h ->
       row_data (find_columns ["Country"; "S&P"; "DBRS"; "Fitch"])
         [mkCell "Peru" false false; mkCell "BBB-" true false;
          mkCell "BBB" false false; mkCell "BBB" false true] !! k
       = Some text ->
       exists i cell,
         ["Country"; "S&P"; "DBRS"; "Fitch"] !! i = Some h
         /\ [mkCell "Peru" false false; mkCell "BBB-" true false;
             mkCell "BBB" false false; mkCell "BBB" false true] !! i
            = Some cell
         /\ is_dbrs (find_columns ["Country"; "S&P"; "DBRS"; "Fitch"]) i
            = false
         /\ text
            = scrape_cell (find_columns ["Country"; "S&P"; "DBRS"; "Fitch"])
                i cell.
Proof.
  apply (row_matches_headers
           (find_columns ["Country"; "S&P"; "DBRS"; "Fitch"])
           ["Country"; "S&P"; "DBRS"; "Fitch"]
           [mkCell "Peru" false false; mkCell "BBB-" true false;
            mkCell "BBB" false false; mkCell "BBB" false true]).
  reflexivity.
Defined.

(** ** The columns found in the header row *)

Lemma enumerate_from_snoc {A : Type} (a : nat) (l : list A) (x : A) :
  combine (seq a (length (l ++ [x])%list)) (l ++ [x])%list
  = (combine (seq a (length l)) l ++ [((a + length l)%nat, x)])%list.
Proof.
  revert a. induction l as [|y l IH]; intros a.
  - cbn. by rewrite Nat.add_0_r.
  - cbn [length app seq combine]. rewrite IH.
    by replace (S a + length l)%nat with (a + S (length l))%nat by lia.
Qed.

Lemma find_columns_snoc (headers : list string) (h : string) :
  find_columns (headers ++ [h])%list
  = find_columns_step (find_columns headers) (length headers, h).
Proof.
  unfold find_columns, enumerate.
  by rewrite enumerate_from_snoc, fold_left_app.
Qed.

Lemma last_where_nil {A : Type} (P : A -> bool) (i : nat) :
  ~ last_where P [] i.
Proof. intros [(x & Hx & _) _]. discriminate. Qed.

Lemma last_where_snoc_hit {A : Type} (P : A -> bool) (l : list A) (x : A)
    (i : nat) :
  P x = true -> last_where P (l ++ [x])%list i <-> i = length l.
Proof.
  intros Hx. split.
  - intros [(y & Hy & _) Hlast].
    apply lookup_snoc_Some in Hy as [[Hlt _]|[-> _]]; [|done].
    assert (P x = false); [|congruence].
    apply (Hlast (length l)); [done|]. by apply list_lookup_middle.
  - intros ->. split.
    + exists x. split; [by apply list_lookup_middle|done].
    + intros j y Hj Hy. apply lookup_lt_Some in Hy.
      rewrite length_app in Hy. cbn in Hy. lia.
Qed.

Lemma last_where_snoc_miss {A : Type} (P : A -> bool) (l : list A) (x : A)
    (i : nat) :
  P x = false -> last_where P (l ++ [x])%list i <-> last_where P l i.
Proof.
  intros Hx. split.
  - intros [(y & Hy & HP) Hlast].
    apply lookup_snoc_Some in Hy as [[Hlt Hy]|[-> <-]]; [|congruence].
    split; [by exists y|].
    intros j z Hj Hz. apply (Hlast j z Hj).
    rewrite lookup_app_l; [done|]. by apply lookup_lt_Some in Hz.
  - intros [(y & Hy & HP) Hlast]. split.
    + exists y. split; [|done].
      rewrite lookup_app_l; [done|]. by apply lookup_lt_Some in Hy.
    + intros j z Hj Hz.
      apply lookup_snoc_Some in Hz as [[_ Hz]|[_ <-]]; [|done].
      by apply (Hlast j z).
Qed.

(** What the loop over the headers has found: each of the four columns is
    the last header that takes its branch. *)
Lemma find_columns_inv (headers : list string) (i : nat) :
  (sp_column (find_columns headers) = Some i
   <-> last_where takes_sp headers i)
  /\ (moodys_column (find_columns headers) = Some i
      <-> last_where takes_moodys headers i)
  /\ (fitch_column (find_columns headers) = Some i
      <-> last_where takes_fitch headers i)
  /\ (dbrs_index (find_columns headers) = Some i
      <-> last_where takes_dbrs headers i).
Proof.
  induction headers as [|h headers IH] using rev_ind.
  - cbn. repeat split; try discriminate;
      intros H; by apply last_where_nil in H.
  - rewrite find_columns_snoc. destruct IH as (Hs & Hm & Hf & Hd).
    unfold find_columns_step.
    fold (names "s&p" h) (names "moody" h) (names "fitch" h)
      (names "dbrs" h).
    destruct (names "s&p" h) eqn:Es; [|destruct (names "moody" h) eqn:Em;
      [|destruct (names "fitch" h) eqn:Ef;
        [|destruct (names "dbrs" h) eqn:Ed]]];
      cbn [sp_column moodys_column fitch_column dbrs_index];
      split_and!;
      first
        [ rewrite last_where_snoc_miss;
          [assumption
          |unfold takes_sp, takes_moodys, takes_fitch, takes_dbrs;
           rewrite ?Es, ?Em, ?Ef, ?Ed; reflexivity]
        | rewrite last_where_snoc_hit;
          [split; congruence
          |unfold takes_sp, takes_moodys, takes_fitch, takes_dbrs;
           rewrite ?Es, ?Em, ?Ef, ?Ed; reflexivity] ].
Qed.

(** X8. The header loop keeps, for each agency, the last header that takes
    the agency's branch, so a column it records is a column of the table
    whose header names the agency. *)
Theorem find_columns_last (headers : list string) (i : nat) :
  (sp_column (find_columns headers) = Some i
   <-> last_where takes_sp headers i)
  /\ (moodys_column (find_columns headers) = Some i
      <-> last_where takes_moodys headers i)
  /\ (fitch_column (find_columns headers) = Some i
      <-> last_where takes_fitch headers i)
  /\ (dbrs_index (find_columns headers) = Some i
      <-> last_where takes_dbrs headers i).
Proof. exact (find_columns_inv headers i). Qed.

Lemma last_where_takes {A : Type} (P Q : A -> bool) (l : list A) (i : nat) :
  (forall x, P x = true -> Q x = false) ->
  last_where P l i -> ~ last_where Q l i.
Proof.
  intros HPQ [(x & Hx & HP) _] [(y & Hy & HQ) _].
  rewrite Hx in Hy. injection Hy as <-. apply HPQ in HP. congruence.
Qed.

(** X9. The DBRS column that the loop records is never one of the rating
    columns: the cell that is left out of a row is not a rating, and no
    rating column is left out. *)
Theorem dbrs_not_rating_column (headers : list string) (i : nat) :
  is_dbrs (find_columns headers) i = true ->
  is_rating_column (find_columns headers) i = false.
Proof.
  intros Hd. apply bool_decide_eq_true in Hd.
  destruct (find_columns_inv headers i) as (Hs & Hm & Hf & Hdb).
  apply Hdb in Hd.
  unfold is_rating_column. cbn [existsb].
  rewrite !bool_decide_eq_false_2; [done| | |].
  - intros H. apply Hf in H. revert H. apply (last_where_takes _ _ _ _) with
      (2 := Hd). intros x. unfold takes_dbrs, takes_fitch.
    destruct (names "s&p" x), (names "moody" x), (names "fitch" x),
      (names "dbrs" x); done.
  - intros H. apply Hm in H. revert H. apply (last_where_takes _ _ _ _) with
      (2 := Hd). intros x. unfold takes_dbrs, takes_moodys.
    destruct (names "s&p" x), (names "moody" x), (names "fitch" x),
      (names "dbrs" x); done.
  - intros H. apply Hs in H. revert H. apply (last_where_takes _ _ _ _) with
      (2 := Hd). intros x. unfold takes_dbrs, takes_sp.
    destruct (names "s&p" x), (names "moody" x), (names "fitch" x),
      (names "dbrs" x); done.
Qed.

Lemma dbrs_not_rating_column_witness :
  is_rating_column (find_columns ["Country"; "S&P"; "DBRS"; "Fitch"]) 2
  = false.
Proof.
  apply (dbrs_not_rating_column ["Country"; "S&P"; "DBRS"; "Fitch"] 2).
  reflexivity.
Defined.

(** ** Country names without their parentheses *)

Section CountryNames.

Implicit Types (s r base inner tail ws : string) (c : ascii).

Lemma append_cons c s r : String c s ++ r = String c (s ++ r).
Proof. reflexivity. Qed.

Lemma append_nil r : EmptyString ++ r = r.
Proof. reflexivity. Qed.

Lemma without_app (a : ascii) s r :
  without a (s ++ r) = without a s && without a r.
Proof. apply string_forall_app. Qed.

(** [lstrip] drops a prefix of whitespace. *)
Lemma lstrip_split s :
  exists ws,
    s = ws ++ PyStr.lstrip s /\ string_forall PyStr.is_space ws = true.
Proof.
  induction s as [|c s (ws & Hs & Hws)].
  - by exists EmptyString.
  - cbn [PyStr.lstrip]. destruct (PyStr.is_space c) eqn:Ec.
    + exists (String c ws). rewrite append_cons, <- Hs.
      split; [done|]. cbn [string_forall]. by rewrite Ec, Hws.
    + by exists EmptyString.
Qed.

Lemma lstrip_without (a : ascii) s :
  without a s = true -> without a (PyStr.lstrip s) = true.
Proof.
  destruct (lstrip_split s) as (ws & Hs & _). intros H.
  rewrite Hs, without_app in H. by apply andb_true_iff in H as [_ H].
Qed.

Lemma lstrip_spaces_app ws r :
  string_forall PyStr.is_space ws = true ->
  PyStr.lstrip (ws ++ r) = PyStr.lstrip r.
Proof.
  induction ws as [|c ws IH]; [done|].
  cbn [string_forall]. intros [Hc Hws]%andb_true_iff.
  rewrite append_cons. cbn [PyStr.lstrip]. rewrite Hc. by apply IH.
Qed.

Lemma lstrip_app_keep s r :
  string_forall PyStr.is_space s = false ->
  PyStr.lstrip (s ++ r) = PyStr.lstrip s ++ r.
Proof.
  induction s as [|c s IH]; [done|].
  cbn [string_forall]. rewrite append_cons. cbn [PyStr.lstrip].
  destruct (PyStr.is_space c); [|done]. cbn [andb]. exact IH.
Qed.

Lemma append_nil_r s : s ++ EmptyString = s.
Proof.
  induction s as [|c s IH]; [done|]. rewrite append_cons. by f_equal.
Qed.

Lemma lstrip_all_space s :
  string_forall PyStr.is_space s = true -> PyStr.lstrip s = EmptyString.
Proof.
  induction s as [|c s IH]; [done|].
  cbn [string_forall PyStr.lstrip]. intros [Hc Hs]%andb_true_iff.
  rewrite Hc. by apply IH.
Qed.

Lemma rstrip_all_space s :
  string_forall PyStr.is_space s = true -> PyStr.rstrip s = EmptyString.
Proof.
  induction s as [|c s IH]; [done|].
  cbn [string_forall PyStr.rstrip]. intros [Hc Hs]%andb_true_iff.
  by rewrite (IH Hs), Hc.
Qed.

Lemma rstrip_empty_all_space s :
  PyStr.rstrip s = EmptyString -> string_forall PyStr.is_space s = true.
Proof.
  induction s as [|c s IH]; [done|].
  cbn [string_forall PyStr.rstrip].
  destruct (PyStr.is_space c) eqn:Ec; cbn [andb]; [|done].
  destruct (PyStr.rstrip s) eqn:Er; [|done]. intros _. by apply IH.
Qed.

Lemma rstrip_cons_keep c s :
  string_forall PyStr.is_space (String c s) = false ->
  PyStr.rstrip (String c s) = String c (PyStr.rstrip s).
Proof.
  cbn [string_forall PyStr.rstrip].
  destruct (PyStr.is_space c) eqn:Ec; cbn [andb]; [|done].
  destruct (PyStr.rstrip s) eqn:Er; [|done].
  intros H. by rewrite (rstrip_empty_all_space s Er) in H.
Qed.

Lemma lstrip_rstrip s :
  PyStr.lstrip (PyStr.rstrip s) = PyStr.rstrip (PyStr.lstrip s).
Proof.
  induction s as [|c s IH]; [done|].
  cbn [PyStr.lstrip PyStr.rstrip].
  destruct (PyStr.is_space c) eqn:Ec; cbn [andb].
  - rewrite <- IH. destruct (PyStr.rstrip s) eqn:Er; [done|].
    cbn [PyStr.is_empty PyStr.lstrip]. by rewrite Ec.
  - cbn [PyStr.lstrip PyStr.rstrip]. by rewrite Ec.
Qed.

Lemma strip_rstrip s : PyStr.strip (PyStr.rstrip s) = PyStr.strip s.
Proof. unfold PyStr.strip. by rewrite lstrip_rstrip, rstrip_idem. Qed.

(** No match of the pattern starts in a text that has no opening
    parenthesis. *)
Lemma match_rest_without s :
  without "(" s = true -> ParenRe.match_rest s = None.
Proof.
  intros H%lstrip_without. unfold ParenRe.match_rest.
  destruct (PyStr.lstrip s) as [|c r]; [done|].
  unfold without in H. cbn [string_forall] in H.
  apply andb_true_iff in H as [Hc _]. apply negb_true_iff in Hc.
  by rewrite Hc.
Qed.

Lemma sub_scan_without s :
  without "(" s = true -> ParenRe.sub_scan 0 s = s.
Proof.
  induction s as [|c s IH]; [done|]. intros H.
  cbn [ParenRe.sub_scan]. rewrite (match_rest_without _ H).
  unfold without in H. cbn [string_forall] in H.
  apply andb_true_iff in H as [_ H]. by rewrite (IH H).
Qed.

Lemma sub_scan_skip s r :
  ParenRe.sub_scan (String.length s) (s ++ r) = ParenRe.sub_scan 0 r.
Proof.
  induction s as [|c s IH]; [done|].
  rewrite append_cons. cbn [String.length ParenRe.sub_scan]. exact IH.
Qed.

Lemma after_close_inner inner tail :
  without ")" inner = true ->
  ParenRe.after_close (inner ++ String ")" tail) = Some tail.
Proof.
  induction inner as [|c inner IH]; [done|].
  unfold without. cbn [string_forall]. intros [Hc H]%andb_true_iff.
  apply negb_true_iff in Hc.
  rewrite append_cons. cbn [ParenRe.after_close]. rewrite Hc. by apply IH.
Qed.

(** A parenthetical with the whitespace before it is matched where it
    starts, up to the whitespace behind it. *)
Lemma match_rest_paren ws inner tail :
  string_forall PyStr.is_space ws = true ->
  without ")" inner = true ->
  ParenRe.match_rest (ws ++ String "(" (inner ++ String ")" tail))
  = Some (PyStr.lstrip tail).
Proof.
  intros Hws Hin. unfold ParenRe.match_rest.
  rewrite (lstrip_spaces_app _ _ Hws). cbn [PyStr.lstrip].
  change (PyStr.is_space "(") with false. cbn [Ascii.eqb Bool.eqb].
  by rewrite (after_close_inner _ _ Hin).
Qed.

Lemma sub_scan_paren ws inner tail :
  string_forall PyStr.is_space ws = true ->
  without ")" inner = true ->
  ParenRe.sub_scan 0 (ws ++ String "(" (inner ++ String ")" tail))
  = ParenRe.sub_scan 0 (PyStr.lstrip tail).
Proof.
  intros Hws Hin. pose proof (match_rest_paren ws inner tail Hws Hin) as Hm.
  destruct (lstrip_split tail) as (w & Ht & _).
  remember (PyStr.lstrip tail) as rest eqn:Er. clear Er.
  assert (Hs : exists c m,
    ws ++ String "(" (inner ++ String ")" tail) = String c (m ++ rest)).
  { rewrite Ht. destruct ws as [|c ws].
    - exists "("%char, (inner ++ String ")" w).
      rewrite append_nil. f_equal.
      by rewrite append_assoc3, append_cons.
    - exists c, (ws ++ String "(" (inner ++ String ")" w)).
      rewrite append_cons. f_equal.
      by rewrite !append_assoc3, append_cons, append_assoc3, append_cons. }
  destruct Hs as (c & m & Hs). rewrite Hs in Hm |- *.
  cbn [ParenRe.sub_scan]. rewrite Hm.
  cbn [String.length]. rewrite string_length_app.
  replace (S (String.length m + String.length rest)
           - String.length rest - 1)%nat
    with (String.length m) by lia.
  apply sub_scan_skip.
Qed.

(** Up to the first parenthetical the scan keeps the text, but for the
    whitespace that stands right before the parenthesis. *)
Lemma sub_scan_base base inner tail :
  without "(" base = true ->
  without ")" inner = true ->
  ParenRe.sub_scan 0 (base ++ String "(" (inner ++ String ")" tail))
  = PyStr.rstrip base ++ ParenRe.sub_scan 0 (PyStr.lstrip tail).
Proof.
  intros Hb Hin. induction base as [|c base IH].
  - rewrite append_nil. by apply (sub_scan_paren EmptyString).
  - destruct (string_forall PyStr.is_space (String c base)) eqn:Esp.
    + rewrite (rstrip_all_space _ Esp), append_nil.
      by apply sub_scan_paren.
    + rewrite (rstrip_cons_keep _ _ Esp).
      assert (Hnone :
        ParenRe.match_rest
          (String c base ++ String "(" (inner ++ String ")" tail)) = None).
      { unfold ParenRe.match_rest. rewrite (lstrip_app_keep _ _ Esp).
        apply lstrip_without in Hb.
        destruct (PyStr.lstrip (String c base)) as [|d r] eqn:El.
        - destruct (lstrip_split (String c base)) as (w & Hw & Hsp).
          rewrite El in Hw. rewrite Hw, string_forall_app, Hsp in Esp.
          discriminate.
        - rewrite append_cons. unfold without in Hb.
          cbn [string_forall] in Hb.
          apply andb_true_iff in Hb as [Hd _]. apply negb_true_iff in Hd.
          by rewrite Hd. }
      rewrite append_cons in Hnone |- *. cbn [ParenRe.sub_scan].
      rewrite Hnone. rewrite append_cons. f_equal. apply IH.
      unfold without in Hb. cbn [string_forall] in Hb.
      by apply andb_true_iff in Hb as [_ Hb].
Qed.

End CountryNames.

(** X12. A name without an opening parenthesis is only stripped. *)
Theorem clean_country_name_plain (name : string) :
  without "(" name = true ->
  clean_country_name name = PyStr.strip name.
Proof.
  intros H. unfold clean_country_name. by rewrite (sub_scan_without _ H).
Qed.

Lemma clean_country_name_plain_witness :
  clean_country_name "  Sri Lanka " = PyStr.strip "  Sri Lanka ".
Proof. apply (clean_country_name_plain "  Sri Lanka "). reflexivity. Defined.

(** X13. A name with one parenthetical loses it together with the whitespace
    on both its sides, so what stood before and behind it is joined with
    nothing in between; with only whitespace behind it, the name that
    stood before it is left, stripped. *)
Theorem clean_country_name_parenthetical (base inner tail : string) :
  without "(" base = true ->
  without ")" inner = true ->
  without "(" tail = true ->
  clean_country_name (base ++ String "(" (inner ++ String ")" tail))
  = PyStr.strip (PyStr.rstrip base ++ PyStr.lstrip tail)
  /\ (string_forall PyStr.is_space tail = true ->
      clean_country_name (base ++ String "(" (inner ++ String ")" tail))
      = PyStr.strip base).
Proof.
  intros Hb Hin Ht. unfold clean_country_name.
  rewrite (sub_scan_base _ _ _ Hb Hin).
  rewrite (sub_scan_without _ (lstrip_without _ _ Ht)).
  split; [done|]. intros Hsp.
  rewrite (lstrip_all_space _ Hsp), append_nil_r. apply strip_rstrip.
Qed.

Lemma clean_country_name_parenthetical_witness :
  clean_country_name
    ("Korea " ++ String "(" ("South" ++ String ")" " Republic"))
  = PyStr.strip (PyStr.rstrip "Korea " ++ PyStr.lstrip " Republic").
Proof.
  apply (clean_country_name_parenthetical "Korea " "South" " Republic");
    reflexivity.
Defined.

(** ** The spread text before it is read as a number *)

Section SpreadText.

Implicit Types (s old : string) (a c : ascii) (P : ascii -> bool).

(** Replacing by nothing only takes characters away. *)
Lemma replace_scan_forall P old (skip : nat) s :
  string_forall P s = true ->
  string_forall P (PyStr.replace_scan old EmptyString skip s) = true.
Proof.
  revert skip. induction s as [|c s IH]; intros skip; [done|].
  cbn [string_forall]. intros [Hc Hs]%andb_true_iff.
  cbn [PyStr.replace_scan]. destruct skip as [|k]; [|by apply IH].
  destruct (PyStr.startswith old (String c s)).
  - rewrite append_nil. by apply IH.
  - cbn [string_forall]. rewrite Hc. by apply IH.
Qed.

Lemma replace_forall P old s :
  PyStr.is_empty old = false ->
  string_forall P s = true ->
  string_forall P (PyStr.replace old EmptyString s) = true.
Proof.
  intros He Hs. unfold PyStr.replace. rewrite He.
  by apply replace_scan_forall.
Qed.

(** Replacing a character by nothing leaves none of it. *)
Lemma replace_char_without a s :
  without a (PyStr.replace (String a EmptyString) EmptyString s) = true.
Proof.
  unfold PyStr.replace. cbn [PyStr.is_empty].
  induction s as [|c s IH]; [done|].
  cbn [PyStr.replace_scan PyStr.startswith String.length Nat.sub].
  rewrite andb_true_r. destruct (Ascii.eqb_spec a c) as [->|Hac].
  - rewrite append_nil. exact IH.
  - unfold without. cbn [string_forall].
    destruct (Ascii.eqb_spec c a) as [->|_]; [done|]. exact IH.
Qed.

Lemma lstrip_forall P s :
  string_forall P s = true -> string_forall P (PyStr.lstrip s) = true.
Proof.
  destruct (lstrip_split s) as (ws & Hs & _). intros H.
  rewrite Hs, string_forall_app in H. by apply andb_true_iff in H as [_ H].
Qed.

Lemma rstrip_forall P s :
  string_forall P s = true -> string_forall P (PyStr.rstrip s) = true.
Proof.
  induction s as [|c s IH]; [done|].
  cbn [string_forall PyStr.rstrip]. intros [Hc Hs]%andb_true_iff.
  destruct (PyStr.is_space c && PyStr.is_empty (PyStr.rstrip s)); [done|].
  cbn [string_forall]. rewrite Hc. by apply IH.
Qed.

Lemma strip_forall P s :
  string_forall P s = true -> string_forall P (PyStr.strip s) = true.
Proof. intros H. by apply rstrip_forall, lstrip_forall. Qed.

End SpreadText.

(** X11. The cleaned spread text holds no comma and no percent sign and has
    no whitespace at either end.  It can still hold [bp]: taking one
    [bp] out can bring a [b] and a [p] together. *)
Theorem clean_spread_text (s : string) :
  without "," (clean_spread s) = true
  /\ without "%" (clean_spread s) = true
  /\ PyStr.strip (clean_spread s) = clean_spread s
  /\ exists s', PyStr.contains "bp" (clean_spread s') = true.
Proof.
  unfold clean_spread. split_and!.
  - apply strip_forall, replace_forall; [done|].
    apply replace_forall; [done|]. apply replace_char_without.
  - apply strip_forall, replace_forall; [done|].
    apply replace_char_without.
  - apply strip_idem.
  - by exists "12 bbpp".
Qed.

(** ** Country codes *)

Lemma lower_char_idem (c : ascii) :
  PyCase.lower_char (PyCase.lower_char c) = PyCase.lower_char c.
Proof. destruct c as [[] [] [] [] [] [] [] []]; reflexivity. Qed.

Lemma lower_idem (s : string) : PyCase.lower (PyCase.lower s) = PyCase.lower s.
Proof.
  induction s as [|c s IH]; [done|].
  cbn [PyCase.lower]. by rewrite lower_char_idem, IH.
Qed.

Lemma lower_length (s : string) :
  String.length (PyCase.lower s) = String.length s.
Proof. induction s as [|c s IH]; [done|]. cbn. by rewrite IH. Qed.

Lemma prefix_length (n : nat) (s : string) :
  String.length (PyCase.prefix n s) = Nat.min n (String.length s).
Proof.
  revert s. induction n as [|n IH]; intros [|c s]; cbn; try done.
  by rewrite IH.
Qed.

Lemma lower_letter_fixed (c : ascii) :
  is_lower_letter c = true -> PyCase.lower_char c = c.
Proof. destruct c as [[] [] [] [] [] [] [] []]; done. Qed.

Lemma lower_letters_fixed (s : string) :
  string_forall is_lower_letter s = true -> PyCase.lower s = s.
Proof.
  induction s as [|c s IH]; [done|].
  cbn [string_forall PyCase.lower]. intros [Hc Hs]%andb_true_iff.
  by rewrite (lower_letter_fixed _ Hc), (IH Hs).
Qed.

Lemma country_codes_shape :
  map_Forall
    (fun _ code =>
       String.length code = 2%nat /\ string_forall is_lower_letter code = true)
    COUNTRY_TO_CODE.
Proof. compute_done. Qed.

(** X19. For a country of [COUNTRY_TO_CODE] the code is the value of the
    table: two letters a..z, which [lower] leaves as they are, so that
    [code.lower()] in [download_flag_icons] changes nothing.  For a
    country outside the table whose first two characters are ASCII the
    code is these characters in lower case: as many as the name has, up
    to two, and lowering it again changes nothing. *)
Theorem country_code_lower_case (ctry : string) :
  (forall code, COUNTRY_TO_CODE !! ctry = Some code ->
     country_code ctry = code /\ String.length code = 2%nat
     /\ string_forall is_lower_letter code = true
     /\ PyCase.lower code = code)
  /\ (COUNTRY_TO_CODE !! ctry = None ->
      string_forall is_ascii (PyCase.prefix 2 ctry) = true ->
      country_code ctry = PyCase.lower (PyCase.prefix 2 ctry)
      /\ String.length (country_code ctry) = Nat.min 2 (String.length ctry)
      /\ PyCase.lower (country_code ctry) = country_code ctry).
Proof.
  unfold country_code. split.
  - intros code E. rewrite E.
    destruct (country_codes_shape ctry code E) as [Hlen Hlow].
    split_and!; [done|done|done|by apply lower_letters_fixed].
  - intros -> _. split_and!; [done| |apply lower_idem].
    by rewrite lower_length, prefix_length.
Qed.

(** ** Tie lines and labels *)

Section TieLines.

Implicit Types (rows : list RatingRow) (row : RatingRow) (k : string)
  (per : gmap string (Q * list Q)) (col : RatingRow -> option Q).

Lemma per_ctry_step_lookup col per row k :
  per_ctry_step col per row !! k
  = if String.eqb (row_country row) k
    then entry_after col row (per !! k)
    else per !! k.
Proof.
  unfold per_ctry_step, entry_after.
  destruct (String.eqb_spec (row_country row) k) as [<-|Hne];
    destruct (col row), (row_spread row); try done.
  - by rewrite lookup_insert_eq.
  - by rewrite lookup_insert_ne.
Qed.

Lemma row_of_none k rows :
  ~ In k (map row_country rows) -> row_of k rows = None.
Proof.
  induction rows as [|row rows IH]; [done|]. cbn [map In row_of List.find].
  intros H. destruct (String.eqb_spec (row_country row) k) as [E|_].
  - exfalso. apply H. by left.
  - apply IH. intros Hin. apply H. by right.
Qed.

(** One pass over the rows changes the entry of a country by its row
    only, when no two rows have the same country. *)
Lemma per_ctry_pass col rows per k :
  List.NoDup (map row_country rows) ->
  fold_left (per_ctry_step col) rows per !! k
  = match row_of k rows with
    | Some row => entry_after col row (per !! k)
    | None => per !! k
    end.
Proof.
  revert per. induction rows as [|row rows IH]; intros per Hnd; [done|].
  cbn [map] in Hnd. apply List.NoDup_cons_iff in Hnd as [Hnew Hnd].
  cbn [fold_left]. rewrite (IH _ Hnd), per_ctry_step_lookup.
  unfold row_of. cbn [List.find]. fold (row_of k rows).
  destruct (String.eqb_spec (row_country row) k) as [<-|Hne]; [|done].
  by rewrite (row_of_none _ _ Hnew).
Qed.

Lemma per_ctry_lookup rows k :
  List.NoDup (map row_country rows) ->
  per_ctry rows !! k = row_of k rows ≫= spread_and_ratings.
Proof.
  intros Hnd. unfold per_ctry, agency_cols. cbn [fold_left].
  rewrite !(per_ctry_pass _ _ _ _ Hnd), lookup_empty.
  destruct (row_of k rows) as [row|]; [|done].
  unfold entry_after, spread_and_ratings, row_ratings, setdefault_append.
  cbn [mbind option_bind].
  destruct (row_sp row), (row_moodys row), (row_fitch row),
    (row_spread row); reflexivity.
Qed.

Lemma row_of_some k rows row :
  row_of k rows = Some row -> In row rows /\ row_country row = k.
Proof.
  intros [Hin Hk]%find_some. split; [done|].
  by destruct (String.eqb_spec (row_country row) k).
Qed.

Lemma row_of_in rows row :
  In row rows -> exists row', row_of (row_country row) rows = Some row'.
Proof.
  intros Hin. destruct (row_of (row_country row) rows) as [row'|] eqn:E;
    [by exists row'|].
  pose proof (find_none _ _ E row Hin) as H. cbn in H.
  by rewrite String.eqb_refl in H.
Qed.

Lemma fold_fmin_le (ys : list Q) (y : Q) : (fold_left fmin ys y <= y)%Q.
Proof.
  revert y. induction ys as [|z ys IH]; intros y; [apply Qle_refl|].
  cbn [fold_left]. eapply Qle_trans; [apply IH|].
  unfold fmin. destruct (Qltb z y) eqn:E; [|apply Qle_refl].
  apply Qltb_lt in E. by apply Qlt_le_weak.
Qed.

Lemma fold_fmax_ge (ys : list Q) (y : Q) : (y <= fold_left fmax ys y)%Q.
Proof.
  revert y. induction ys as [|z ys IH]; intros y; [apply Qle_refl|].
  cbn [fold_left]. eapply Qle_trans; [|apply IH].
  unfold fmax. destruct (Qltb y z) eqn:E; [|apply Qle_refl].
  apply Qltb_lt in E. by apply Qlt_le_weak.
Qed.

End TieLines.

(** X21. When no two rows have the same country, the entry that the loops
    over the rating columns leave for a country is the spread of its row
    with the ratings of the row in the order S&P, Moody's, Fitch, and
    there is an entry exactly for the rows with a spread and a rating. *)
Theorem per_ctry_entries (rows : list RatingRow) (ctry : string)
    (d : Q * list Q) :
  List.NoDup (map row_country rows) ->
  per_ctry rows !! ctry = Some d
  <-> exists row,
        In row rows /\ row_country row = ctry
        /\ row_spread row = Some (fst d)
        /\ omap id (row_ratings row) = snd d
        /\ snd d <> [].
Proof.
  intros Hnd. rewrite (per_ctry_lookup _ _ Hnd). split.
  - destruct (row_of ctry rows) as [row|] eqn:E; [|done].
    apply row_of_some in E as [Hin Hk]. cbn [mbind option_bind].
    unfold spread_and_ratings.
    destruct (row_spread row) as [x|] eqn:Ex; [|done].
    destruct (omap id (row_ratings row)) as [|y ys] eqn:Ey; [done|].
    intros [= <-]. exists row. cbn [fst snd]. by rewrite Ey.
  - intros (row & Hin & <- & Hx & Hys & Hne).
    destruct (row_of_in _ _ Hin) as (row' & E). rewrite E.
    apply row_of_some in E as [Hin' Hk].
    assert (row' = row) as ->.
    { clear -Hnd Hin Hin' Hk. induction rows as [|r rows IH]; [done|].
      cbn [map] in Hnd. apply List.NoDup_cons_iff in Hnd as [Hnew Hnd].
      destruct Hin as [->|Hin], Hin' as [->|Hin']; [done| | |by apply IH].
      - exfalso. apply Hnew. rewrite <- Hk. by apply in_map.
      - exfalso. apply Hnew. rewrite Hk. by apply in_map. }
    cbn [mbind option_bind]. unfold spread_and_ratings. rewrite Hx, Hys.
    destruct d as [x [|y ys]]; done.
Qed.

Lemma per_ctry_entries_witness :
  per_ctry
    [mkRow "Norway" (Some 30%Q) (Some 22%Q) None (Some 21%Q);
     mkRow "Egypt" None (Some 7%Q) None (Some 8%Q)] !! "Norway"
  = Some (30%Q, [22%Q; 21%Q])
  <-> exists row,
        In row [mkRow "Norway" (Some 30%Q) (Some 22%Q) None (Some 21%Q);
                mkRow "Egypt" None (Some 7%Q) None (Some 8%Q)]
        /\ row_country row = "Norway"
        /\ row_spread row = Some (fst (30%Q, [22%Q; 21%Q]))
        /\ omap id (row_ratings row) = snd (30%Q, [22%Q; 21%Q])
        /\ snd (30%Q, [22%Q; 21%Q]) <> [].
Proof.
  apply (per_ctry_entries
           [mkRow "Norway" (Some 30%Q) (Some 22%Q) None (Some 21%Q);
            mkRow "Egypt" None (Some 7%Q) None (Some 8%Q)]
           "Norway" (30%Q, [22%Q; 21%Q])).
  constructor; [cbn; intros [H|[]]; discriminate|].
  constructor; [cbn; intros []|]. constructor.
Defined.

(** X22. When no two rows have the same country, a tie line ends where the
    label of its country is anchored: its upper end is the best rating
    of the row, at the spread of the row, and its lower end is not
    above the upper one. *)
Theorem tie_line_meets_label (rows : list RatingRow) (ctry : string)
    (d : Q * list Q) (x lo hi : Q) :
  List.NoDup (map row_country rows) ->
  per_ctry rows !! ctry = Some d ->
  tie_line d = Some (x, lo, hi) ->
  (lo <= hi)%Q
  /\ exists p,
       In p (country_data rows)
       /\ pt_ctry p = ctry /\ pt_x p = x /\ pt_y p = hi.
Proof.
  intros Hnd Hd Ht. rewrite (per_ctry_lookup _ _ Hnd) in Hd.
  destruct (row_of ctry rows) as [row|] eqn:E; [|done].
  apply row_of_some in E as [Hin Hk]. cbn [mbind option_bind] in Hd.
  unfold spread_and_ratings in Hd.
  destruct (row_spread row) as [x0|] eqn:Ex; [|done].
  destruct (omap id (row_ratings row)) as [|y ys] eqn:Ey; [done|].
  injection Hd as <-. unfold tie_line in Ht. cbn [fst snd] in Ht.
  destruct ys as [|y' ys]; [done|]. injection Ht as <- <- <-. split.
  - apply Qle_trans with y;
      [apply (fold_fmin_le (y' :: ys) y)|apply (fold_fmax_ge (y' :: ys) y)].
  - exists (mkPoint x0 (fold_left fmax (y' :: ys) y) ctry (country_code ctry)).
    split; [|done]. unfold country_data.
    apply list_elem_of_In, list_elem_of_omap. exists row.
    split; [by apply list_elem_of_In|].
    unfold nanmax. by rewrite Ex, Ey, Hk.
Qed.

Lemma tie_line_meets_label_witness :
  (21 <= 22)%Q
  /\ exists p,
       In p (country_data
               [mkRow "Norway" (Some 30%Q) (Some 22%Q) None (Some 21%Q);
                mkRow "Egypt" None (Some 7%Q) None (Some 8%Q)])
       /\ pt_ctry p = "Norway" /\ pt_x p = 30%Q /\ pt_y p = 22%Q.
Proof.
  apply (tie_line_meets_label
           [mkRow "Norway" (Some 30%Q) (Some 22%Q) None (Some 21%Q);
            mkRow "Egypt" None (Some 7%Q) None (Some 8%Q)]
           "Norway" (30%Q, [22%Q; 21%Q]) 30 21 22).
  - constructor; [cbn; intros [H|[]]; discriminate|].
    constructor; [cbn; intros []|]. constructor.
  - reflexivity.
  - reflexivity.
Defined.

(** * The label loops in binary64 *)

(** ** Facts on binary64 numbers *)






(** ** The loops in binary64 *)

Section Loops64.

Import Binary64.

(** *** The investment-grade plot *)

Lemma ig64_best_step_keeps (lx ly : float) (used : list (float * float))
    (seen : list float) (st : float * option nat) (c : float) :
  best_so_far lx ly used seen st ->
  best_so_far lx ly used (seen ++ [c])%list
    (InvestmentGrade.best_step lx used st c).
Proof.
  unfold best_so_far, InvestmentGrade.best_step.
  rewrite List.filter_app. cbn [List.filter].
  destruct (InvestmentGrade.in_bounds c) eqn:Eb; [|by rewrite app_nil_r].
  destruct st as [b [k|]]; cbn [fst snd InvestmentGrade.below].
  - intros (Hk & before & behind & Hseen & Hbefore & Hbehind).
    rewrite Hk in Hbefore, Hbehind.
    destruct (Nat.ltb_spec (InvestmentGrade.overlap_count lx c used) k)
      as [Hlt|Hge]; cbn [fst snd].
    + split; [done|].
      exists (List.filter InvestmentGrade.in_bounds seen), [].
      split; [done|]. split; [|by intros c' []].
      intros c' Hc'. rewrite Hseen in Hc'.
      apply in_app_or in Hc' as [Hc'|[<-|Hc']].
      * specialize (Hbefore c' Hc'). lia.
      * lia.
      * specialize (Hbehind c' Hc'). lia.
    + split; [done|]. exists before, (behind ++ [c])%list.
      rewrite Hseen, <- app_assoc. split; [done|]. rewrite Hk.
      split; [done|].
      intros c' [Hc'|[<-|[]]]%in_app_or; [by apply Hbehind|done].
  - intros [Hnil _]. rewrite Hnil. cbn [app fst snd]. split; [done|].
    exists [], []. split; [done|]. split; by intros c' [].
Qed.

Lemma ig64_best_fold_keeps (lx ly : float) (used : list (float * float))
    (cs seen : list float) (st : float * option nat) :
  best_so_far lx ly used seen st ->
  best_so_far lx ly used (seen ++ cs)%list
    (fold_left (InvestmentGrade.best_step lx used) cs st).
Proof.
  revert seen st. induction cs as [|c cs IH]; intros seen st H; simpl.
  - by rewrite app_nil_r.
  - replace (seen ++ c :: cs)%list with ((seen ++ [c]) ++ cs)%list
      by (by rewrite <- app_assoc).
    apply IH. by apply ig64_best_step_keeps.
Qed.

(** What [best_position] returns: the first of the candidates within
    the bounds with the fewest overlaps, or [ly] when none is within
    the bounds. *)
Lemma ig64_best_position_spec (lx ly used_y : float)
    (used : list (float * float)) :
  let C := List.filter InvestmentGrade.in_bounds
             (InvestmentGrade.candidates used_y) in
  (C = [] /\ InvestmentGrade.best_position lx ly used_y used = ly)
  \/ first_with_fewest (fun c => InvestmentGrade.overlap_count lx c used) C
       (InvestmentGrade.best_position lx ly used_y used).
Proof.
  intros C. unfold InvestmentGrade.best_position.
  pose proof (ig64_best_fold_keeps lx ly used
                (InvestmentGrade.candidates used_y) [] (ly, None)) as H.
  cbn [app] in H. fold C in H.
  destruct (fold_left (InvestmentGrade.best_step lx used)
              (InvestmentGrade.candidates used_y) (ly, None))
    as [b [k|]]; unfold best_so_far in H; cbn [fst snd] in *.
  - right. by destruct H as [_ H]; [by split|].
  - left. apply H. by split.
Qed.

(** The inner loop stops at the first placed label that overlaps. *)
Lemma ig64_adjust_from_find (lx ly : float) (used rest : list (float * float)) :
  InvestmentGrade.adjust_from lx ly used rest
  = match List.find (InvestmentGrade.overlaps lx ly) rest with
    | Some u => InvestmentGrade.best_position lx ly (snd u) used
    | None => ly
    end.
Proof.
  induction rest as [|[ux uy] rest IH];
    cbn [InvestmentGrade.adjust_from List.find]; [done|].
  unfold InvestmentGrade.overlaps at 1.
  destruct (abs (lx - ux) <? InvestmentGrade.window)%float; cbn [andb];
    [|exact IH].
  destruct (abs (ly - uy) <? InvestmentGrade.min_distance)%float;
    [done|exact IH].
Qed.

Lemma find_first {A : Type} (P : A -> bool) (before behind : list A) (u : A) :
  (forall v, In v before -> P v = false) -> P u = true ->
  List.find P (before ++ u :: behind)%list = Some u.
Proof.
  intros Hb Hu. induction before as [|v before IH]; cbn [app List.find].
  - by rewrite Hu.
  - rewrite (Hb v) by (by left). apply IH. intros v' Hv'. apply Hb. by right.
Qed.

Lemma ig64_no_collision (lx ly : float) (used : list (float * float)) :
  (forall u, In u used -> InvestmentGrade.overlaps lx ly u = false) ->
  InvestmentGrade.adjust lx ly used = ly.
Proof.
  intros H. unfold InvestmentGrade.adjust. rewrite ig64_adjust_from_find.
  destruct (List.find _ used) as [u|] eqn:E; [|done].
  apply find_some in E as [Hin Hc]. rewrite (H u Hin) in Hc. discriminate.
Qed.

Lemma ig64_first_collision (lx ly : float)
    (before behind : list (float * float)) (u : float * float) :
  (forall v, In v before -> InvestmentGrade.overlaps lx ly v = false) ->
  InvestmentGrade.overlaps lx ly u = true ->
  let used_positions := (before ++ u :: behind)%list in
  let C := List.filter InvestmentGrade.in_bounds
             (InvestmentGrade.candidates (snd u)) in
  (C = [] /\ InvestmentGrade.adjust lx ly used_positions = ly)
  \/ first_with_fewest
       (fun c => InvestmentGrade.overlap_count lx c used_positions) C
       (InvestmentGrade.adjust lx ly used_positions).
Proof.
  intros Hb Hu used_positions C. subst used_positions C.
  unfold InvestmentGrade.adjust.
  rewrite ig64_adjust_from_find, (find_first _ _ _ _ Hb Hu).
  apply ig64_best_position_spec.
Qed.


(** *** The full plot *)

Lemma full64_adjust_step_cases (lx ly : float) (u : float * float) :
  FullPlot.adjust_step lx ly u
  = if collides FullPlot.window FullPlot.min_distance lx ly u
    then if (snd u <=? ly)%float then (snd u + FullPlot.min_distance)%float
         else (snd u - FullPlot.min_distance)%float
    else ly.
Proof.
  destruct u as [ux uy]. unfold FullPlot.adjust_step, collides.
  cbn [fst snd].
  destruct (abs (lx - ux) <? FullPlot.window)%float; [|done].
  by destruct (abs (ly - uy) <? FullPlot.min_distance)%float.
Qed.

Lemma full64_no_collision (lx ly : float) (used : list (float * float)) :
  (forall u, In u used ->
     collides FullPlot.window FullPlot.min_distance lx ly u = false) ->
  FullPlot.adjust lx ly used = ly.
Proof.
  unfold FullPlot.adjust. induction used as [|u used IH]; intros H; [done|].
  cbn [fold_left]. rewrite full64_adjust_step_cases, (H u) by (by left).
  apply IH. intros u' Hu'. apply H. by right.
Qed.

(** The full plot moves a label next to a placed label of its window,
    or leaves it. *)
Lemma full64_adjust_result (lx ly : float) (used : list (float * float)) :
  FullPlot.adjust lx ly used = ly
  \/ exists u, In u used
       /\ (abs (lx - fst u) <? FullPlot.window)%float = true
       /\ (FullPlot.adjust lx ly used = (snd u + FullPlot.min_distance)%float
           \/ FullPlot.adjust lx ly used
              = (snd u - FullPlot.min_distance)%float).
Proof.
  unfold FullPlot.adjust. revert ly.
  induction used as [|u used IH]; intros ly; [by left|].
  cbn [fold_left].
  destruct (IH (FullPlot.adjust_step lx ly u)) as [Heq|(u' & Hin & Hw & Hr)].
  - rewrite Heq, full64_adjust_step_cases.
    destruct (collides FullPlot.window FullPlot.min_distance lx ly u)
      eqn:Ec; [|by left].
    right. exists u. split; [by left|].
    unfold collides in Ec. apply andb_true_iff in Ec as [Ew _].
    split; [done|]. destruct (snd u <=? ly)%float; auto.
  - right. exists u'. split; [by right|]. split; done.
Qed.

(** *** A label and the one placed before it *)

Section Previous64.

Variable adjust : float -> float -> list (float * float) -> float.
Variable label_dx : float.

Lemma place64_acc_length (data : list LabelPoint)
    (acc : list (float * float)) :
  length (fold_left (place_step adjust label_dx) data acc)
  = (length acc + length data)%nat.
Proof.
  revert acc. induction data as [|p data IH]; intros acc; simpl; [lia|].
  rewrite IH. unfold place_step. rewrite length_app. simpl. lia.
Qed.

(** The positions already appended are never touched again. *)
Lemma place64_acc_take (data : list LabelPoint) (acc : list (float * float))
    (n : nat) :
  fold_left (place_step adjust label_dx) (take n data) acc
  = take (length acc + n) (fold_left (place_step adjust label_dx) data acc).
Proof.
  revert acc n. induction data as [|p data IH]; intros acc n.
  - rewrite take_nil. simpl. rewrite take_ge; [done|lia].
  - destruct n as [|n]; simpl.
    + specialize (IH (place_step adjust label_dx acc p) 0%nat).
      rewrite take_0 in IH. simpl in IH.
      assert (Hacc :
                take (length acc) (place_step adjust label_dx acc p) = acc).
      { unfold place_step. by rewrite take_app_length. }
      rewrite <- Hacc at 1. rewrite IH at 1. rewrite take_take.
      f_equal. unfold place_step. rewrite length_app. simpl. lia.
    + rewrite IH. f_equal. unfold place_step.
      rewrite length_app. simpl. lia.
Qed.

(** The step of the loop, read off the result: the position at index
    [i] is that of the [i]-th point, set against the positions before. *)
Lemma place64_lookup (data : list LabelPoint) (i : nat) (b : float * float) :
  place adjust label_dx data !! i = Some b ->
  exists p, data !! i = Some p
    /\ b = ((pt_x p + label_dx)%float,
            adjust (pt_x p + label_dx)%float (pt_y p)
              (take i (place adjust label_dx data))).
Proof.
  intros Hb.
  assert (Hi : (i < length data)%nat).
  { apply lookup_lt_Some in Hb. unfold place in Hb.
    rewrite place64_acc_length in Hb. simpl in Hb. lia. }
  destruct (lookup_lt_is_Some_2 data i Hi) as [p Hp]. exists p.
  split; [done|].
  pose proof (place64_acc_take data [] (S i)) as Hs. cbn [length] in Hs.
  fold (place adjust label_dx data) in Hs.
  rewrite (take_S_r _ _ _ Hp), fold_left_app in Hs. cbn [fold_left] in Hs.
  pose proof (place64_acc_take data [] i) as Hi'. cbn [length] in Hi'.
  fold (place adjust label_dx data) in Hi'. rewrite Hi' in Hs.
  cbn [Nat.add] in Hs.
  rewrite (take_S_r _ _ _ Hb) in Hs. unfold place_step in Hs.
  by apply app_inj_tail in Hs as [_ Hs].
Qed.

End Previous64.

(** After the scan the label passes the test against the last placed
    label, or stands at the sum or the difference that this label moved
    it to. *)
Lemma full64_adjust_last (lx ly : float) (used : list (float * float))
    (u : float * float) :
  collides FullPlot.window FullPlot.min_distance lx
    (FullPlot.adjust lx ly (used ++ [u])%list) u = false
  \/ FullPlot.adjust lx ly (used ++ [u])%list
     = (snd u + FullPlot.min_distance)%float
  \/ FullPlot.adjust lx ly (used ++ [u])%list
     = (snd u - FullPlot.min_distance)%float.
Proof.
  unfold FullPlot.adjust. rewrite fold_left_app. cbn [fold_left].
  generalize (fold_left (FullPlot.adjust_step lx) used ly). intros ly'.
  rewrite full64_adjust_step_cases.
  destruct (collides _ _ lx ly' u) eqn:Ec; [|by left].
  right. destruct (snd u <=? ly')%float; auto.
Qed.

(** *** Labels that are apart *)

Lemma apart64_sym (w d label_dx : float) (p q : LabelPoint) :
  apart w d label_dx p q -> apart w d label_dx q p.
Proof. by intros [H1 H2]. Qed.

Section Apart64.

Variables (w d : float)
  (adjust : float -> float -> list (float * float) -> float)
  (label_dx : float).
Hypothesis adjust_free : forall lx ly used,
  (forall u, In u used -> collides w d lx ly u = false) ->
  adjust lx ly used = ly.

Lemma place64_apart (data placed : list LabelPoint) :
  (forall a b, In a placed -> In b data -> apart w d label_dx a b) ->
  ForallOrdPairs (apart w d label_dx) data ->
  fold_left (place_step adjust label_dx) data
    (map (own_position label_dx) placed)
  = map (own_position label_dx) (placed ++ data)%list.
Proof.
  revert placed. induction data as [|p data IH]; intros placed Hpd Hd.
  - by rewrite app_nil_r.
  - inversion Hd as [|? ? Hp Hd']; subst. cbn [fold_left].
    replace (place_step adjust label_dx (map (own_position label_dx) placed) p)
      with (map (own_position label_dx) (placed ++ [p])%list).
    + rewrite IH; [by rewrite <- app_assoc| |done].
      intros a b [Ha|[<-|[]]]%in_app_or Hb.
      * apply Hpd; [done|by right].
      * rewrite List.Forall_forall in Hp. by apply Hp.
    + unfold place_step. rewrite map_app. cbn [map]. f_equal. f_equal.
      unfold own_position at 1. f_equal. symmetry. apply adjust_free.
      intros u (a & <- & Ha)%in_map_iff.
      apply (Hpd a p Ha). by left.
Qed.

Lemma resolve64_apart (lt : LabelPoint -> LabelPoint -> bool)
    (country_data : list LabelPoint) :
  ForallOrdPairs (apart w d label_dx) country_data ->
  place adjust label_dx (sort_by lt country_data)
  = map (own_position label_dx) (sort_by lt country_data).
Proof.
  intros H. apply (place64_apart _ []); [by intros a b []|].
  eapply ordered_pairs_perm; [apply apart64_sym| |exact H].
  symmetry. apply sort_by_perm.
Qed.

End Apart64.

(** *** Two points at the same place *)




End Loops64.

(** ** Two points at the same place *)




(** ** The displacement rule *)

(** C7, as the code has it.  The investment-grade resolver leaves the
    label where no placed label overlaps.  Otherwise it stops at the
    first placed label that overlaps: within the window (40) and closer
    than [min_distance] (0.6).  Of the four positions
    [used_y ± min_distance] and [used_y ± 1.5 min_distance] around that
    label it drops those outside 13.8..22.5 and takes the first with the
    fewest overlaps with the placed labels; with no position within the
    bounds the label keeps its position.  The full-plot resolver counts
    no collisions and has no bounds.  It goes through all the placed
    labels: one that collides with the current position, within the
    window (50) and closer than [min_distance] (0.8), moves the label to
    [used_y + min_distance] when the label is at [used_y] or above and
    to [used_y - min_distance] otherwise, and the scan goes on from the
    new position.  So the label stays where no placed label collides,
    and otherwise ends at [used_y ± min_distance] of a placed label of
    the window or at its own position. *)
Theorem displacement_rule :
  (forall lx ly used_positions,
     (forall u, In u used_positions ->
        Binary64.InvestmentGrade.overlaps lx ly u = false) ->
     Binary64.InvestmentGrade.adjust lx ly used_positions = ly)
  /\ (forall lx ly before u behind,
        (forall v, In v before ->
           Binary64.InvestmentGrade.overlaps lx ly v = false) ->
        Binary64.InvestmentGrade.overlaps lx ly u = true ->
        let used_positions := (before ++ u :: behind)%list in
        let C := List.filter Binary64.InvestmentGrade.in_bounds
                   (Binary64.InvestmentGrade.candidates (snd u)) in
        (C = [] /\ Binary64.InvestmentGrade.adjust lx ly used_positions = ly)
        \/ Binary64.first_with_fewest
             (fun c =>
                Binary64.InvestmentGrade.overlap_count lx c used_positions)
             C (Binary64.InvestmentGrade.adjust lx ly used_positions))
  /\ (forall used_y,
        Binary64.InvestmentGrade.candidates used_y
        = [used_y + 0.6; used_y - 0.6;
           used_y + 0.6 * 1.5; used_y - 0.6 * 1.5]%float)
  /\ (forall c,
        Binary64.InvestmentGrade.in_bounds c
        = (13.8 <=? c)%float && (c <=? 22.5)%float)
  /\ (forall lx c used_positions,
        Binary64.InvestmentGrade.overlap_count lx c used_positions
        = Binary64.collisions 40 0.6 lx c used_positions)
  /\ (forall lx ly u,
        Binary64.FullPlot.adjust_step lx ly u
        = if Binary64.collides 50 0.8 lx ly u
          then if (snd u <=? ly)%float then (snd u + 0.8)%float
               else (snd u - 0.8)%float
          else ly)
  /\ (forall lx ly,
        Binary64.FullPlot.adjust lx ly [] = ly)
  /\ (forall lx ly u used_positions,
        Binary64.FullPlot.adjust lx ly (u :: used_positions)
        = Binary64.FullPlot.adjust lx
            (Binary64.FullPlot.adjust_step lx ly u) used_positions)
  /\ (forall lx ly used_positions,
        (forall u, In u used_positions ->
           Binary64.collides 50 0.8 lx ly u = false) ->
        Binary64.FullPlot.adjust lx ly used_positions = ly)
  /\ (forall lx ly used_positions,
        Binary64.FullPlot.adjust lx ly used_positions = ly
        \/ exists u, In u used_positions
             /\ (abs (lx - fst u) <? 50)%float = true
             /\ (Binary64.FullPlot.adjust lx ly used_positions
                 = (snd u + 0.8)%float
                 \/ Binary64.FullPlot.adjust lx ly used_positions
                    = (snd u - 0.8)%float)).
Proof.
  split; [exact ig64_no_collision|].
  split; [intros lx ly before u behind; by apply ig64_first_collision|].
  split; [reflexivity|]. split; [reflexivity|].
  split.
  { intros lx c used. unfold Binary64.InvestmentGrade.overlap_count,
      Binary64.collisions. f_equal. apply List.filter_ext. by intros [ux uy]. }
  split; [exact full64_adjust_step_cases|].
  split; [reflexivity|]. split; [reflexivity|].
  split; [exact full64_no_collision|exact full64_adjust_result].
Qed.

(** C7 as stated fails for the full plot.  With labels placed at
    (8, 10.8) and (9, 10), the label for the point (2, 10.7) goes to
    (10, 10.8), on top of the first, while 10 - 0.8, which is
    [min_distance] below the second, collides with nothing. *)
Lemma displacement_counterexample :
  Binary64.FullPlot.resolve 8
    [Binary64.mkPoint 0 10.8 "Peru" "pe"; Binary64.mkPoint 1 10 "India" "in";
     Binary64.mkPoint 2 10.7 "Italy" "it"]
  = [(8, 10.8); (9, 10); (10, 10.8)]%float
  /\ Binary64.collisions Binary64.FullPlot.window
       Binary64.FullPlot.min_distance 10 10.8 [(8, 10.8); (9, 10)]%float
     = 1%nat
  /\ Binary64.collisions Binary64.FullPlot.window
       Binary64.FullPlot.min_distance 10 (10 - 0.8)
       [(8, 10.8); (9, 10)]%float = 0%nat
  /\ ~ Binary64.fewest_collisions_rule Binary64.FullPlot.window
         Binary64.FullPlot.min_distance
         (fun used_y => [used_y + Binary64.FullPlot.min_distance;
                         used_y - Binary64.FullPlot.min_distance]%float)
         (fun _ => true) Binary64.FullPlot.adjust.
Proof.
  split; [reflexivity|]. split; [reflexivity|]. split; [reflexivity|].
  intros H.
  destruct (H 10 10.7 [(8, 10.8); (9, 10)])%float
    as (u & Hin & _ & Hrule).
  { exists (8, 10.8)%float. split; [by left|reflexivity]. }
  destruct Hin as [<-|[<-|[]]].
  - destruct Hrule as [Hc _]; [done|].
    destruct Hc as [Hc|[Hc|[]]];
      apply (f_equal Prim2SF) in Hc; vm_compute in Hc; discriminate.
  - destruct Hrule as [_ Hmin]; [done|].
    specialize (Hmin (10 - 0.8)%float). vm_compute in Hmin.
    assert (1 <= 0)%nat; [|lia]. apply Hmin. by right; left.
Qed.

(** ** A label and the one placed before it *)

(** X26. Full plot: a label passes the test of the resolver against the
    label placed just before it (they are not both closer than 50
    horizontally and closer than 0.8 vertically), or it stands at the
    float sum [used_y + 0.8] or the float difference [used_y - 0.8] of
    that label, which is the last to move it.  The rounding of that sum
    can leave the two closer than 0.8 by the same test. *)
Theorem full_plot_previous_label (label_dx : float)
    (country_data : list Binary64.LabelPoint) (i : nat)
    (a b : float * float) :
  Binary64.FullPlot.resolve label_dx country_data !! i = Some a ->
  Binary64.FullPlot.resolve label_dx country_data !! S i = Some b ->
  (Binary64.collides Binary64.FullPlot.window Binary64.FullPlot.min_distance
     (fst b) (snd b) a = false
   \/ snd b = (snd a + Binary64.FullPlot.min_distance)%float
   \/ snd b = (snd a - Binary64.FullPlot.min_distance)%float)
  /\ exists y,
       Binary64.collides Binary64.FullPlot.window
         Binary64.FullPlot.min_distance 0
         (y + Binary64.FullPlot.min_distance) (0%float, y) = true.
Proof.
  unfold Binary64.FullPlot.resolve. intros Ha Hb. split.
  - destruct (place64_lookup _ _ _ _ _ Hb) as (p & _ & ->).
    rewrite (take_S_r _ _ _ Ha). cbn [fst snd].
    apply full64_adjust_last.
  - by exists 5%float.
Qed.

Lemma full_plot_previous_label_witness :
  (Binary64.collides Binary64.FullPlot.window Binary64.FullPlot.min_distance
     10 10.8 (9, 10)%float = false
   \/ 10.8%float = (10 + Binary64.FullPlot.min_distance)%float
   \/ 10.8%float = (10 - Binary64.FullPlot.min_distance)%float)
  /\ exists y,
       Binary64.collides Binary64.FullPlot.window
         Binary64.FullPlot.min_distance 0
         (y + Binary64.FullPlot.min_distance) (0%float, y) = true.
Proof.
  apply (full_plot_previous_label 8
           [Binary64.mkPoint 0 10.8 "Peru" "pe";
            Binary64.mkPoint 1 10 "India" "in";
            Binary64.mkPoint 2 10.7 "Italy" "it"] 1
           (9, 10)%float (10, 10.8)%float);
    reflexivity.
Defined.

(** ** Labels that are apart *)

(** X27. Full plot: when no label at its own position collides with
    another label at its own position, by the test of the resolver
    (closer than 50 horizontally and closer than 0.8 vertically), no
    label is displaced: the labels are the points sorted by x, each
    [label_dx] to the right of its point. *)
Theorem full_plot_apart_unmoved (label_dx : float)
    (country_data : list Binary64.LabelPoint) :
  ForallOrdPairs
    (Binary64.apart Binary64.FullPlot.window Binary64.FullPlot.min_distance
       label_dx) country_data ->
  Binary64.FullPlot.resolve label_dx country_data
  = map (Binary64.own_position label_dx)
      (sort_by Binary64.FullPlot.key_lt country_data).
Proof.
  apply resolve64_apart. intros lx ly used. apply full64_no_collision.
Qed.

Lemma full_plot_apart_unmoved_witness :
  Binary64.FullPlot.resolve 8
    [Binary64.mkPoint 120 15 "Chile" "cl";
     Binary64.mkPoint 100 15.8 "Malta" "mt";
     Binary64.mkPoint 40 15 "Japan" "jp"]
  = map (Binary64.own_position 8)
      (sort_by Binary64.FullPlot.key_lt
         [Binary64.mkPoint 120 15 "Chile" "cl";
          Binary64.mkPoint 100 15.8 "Malta" "mt";
          Binary64.mkPoint 40 15 "Japan" "jp"]).
Proof.
  apply (full_plot_apart_unmoved 8).
  repeat constructor.
Defined.

(** X28. Investment-grade plot: when no label at its own position
    collides with another label at its own position, by the test of the
    resolver (closer than 40 horizontally and closer than 0.6
    vertically), no label is displaced: the labels are the points sorted
    by (x, y), each [label_dx] to the right of its point. *)
Theorem investment_grade_apart_unmoved (label_dx : float)
    (country_data : list Binary64.LabelPoint) :
  ForallOrdPairs
    (Binary64.apart Binary64.InvestmentGrade.window
       Binary64.InvestmentGrade.min_distance label_dx) country_data ->
  Binary64.InvestmentGrade.resolve label_dx country_data
  = map (Binary64.own_position label_dx)
      (sort_by Binary64.InvestmentGrade.key_lt country_data).
Proof.
  apply resolve64_apart. intros lx ly used H. apply ig64_no_collision.
  intros [ux uy] Hu. exact (H _ Hu).
Qed.

Lemma investment_grade_apart_unmoved_witness :
  Binary64.InvestmentGrade.resolve 8
    [Binary64.mkPoint 120 15 "Chile" "cl";
     Binary64.mkPoint 100 15.7 "Malta" "mt";
     Binary64.mkPoint 80 15 "Japan" "jp"]
  = map (Binary64.own_position 8)
      (sort_by Binary64.InvestmentGrade.key_lt
         [Binary64.mkPoint 120 15 "Chile" "cl";
          Binary64.mkPoint 100 15.7 "Malta" "mt";
          Binary64.mkPoint 80 15 "Japan" "jp"]).
Proof.
  apply (investment_grade_apart_unmoved 8).
  repeat constructor.
Defined.
